(** * Top-languages fetcher of github-readme-stats

    A shallow embedding of [src/fetchers/top-languages.js] and the
    properties of [fetchTopLanguages] that its specification states.

    Conventions of the embedding.
    - JavaScript numbers are modelled by [Z]: byte sizes are the integers
      GitHub reports, the two weights are natural exponents, and all
      arithmetic is exact (no rounding above 2^53, no overflow).
    - The network ([retryer] over [contributionsFetcher]) is an oracle from
      query variables to an outcome; the log and the list of issued queries
      are threaded explicitly.
    - The lookup object [repoToHide] is keyed by repository names, which the
      user chooses; its model keeps the members that a plain object
      inherits from [Object.prototype].
    - The function is embedded twice.  [fetchTopLanguages] takes a payload
      in which every element of a contribution list and every language edge
      is an object with its node, and keeps the tables keyed by language
      name as insertion-ordered association lists ([OMap]), as the [Map] of
      repositories is.  [fetchTopLanguagesRaw] takes the payload as it is
      received, where [null] may stand for the data of a response, a
      contribution list, an element of a list and the node of an edge, and
      keeps the tables keyed by language name as plain objects
      ([JsObject]): array-index keys are enumerated first, and an
      assignment to [__proto__] creates no property.  The two agree on a
      payload without [null] whose language names are neither array
      indices nor [__proto__] ([fetchTopLanguagesRaw_embed_plain]).
    - A language named like a method of [Object.prototype] ([toString],
      [valueOf], ...) makes line 196 read the inherited function and the
      size become [NaN]; such names are outside both embeddings. *)

From Stdlib Require Import ZArith Lia.
From stdpp Require Import base list strings gmap sorting.

Local Open Scope string_scope.
Local Open Scope Z_scope.

(** ** Dates: [new Date(t).toISOString()] *)

Module IsoDate.

Definition msPerDay : Z := 86400000.

(** Decimal rendering of [n] on exactly [w] digits. *)
Fixpoint pad_dec (w : nat) (n : Z) : string :=
  match w with
  | O => ""
  | S w' =>
      pad_dec w' (n / 10)
        ++ String (Ascii.ascii_of_nat (48 + Z.to_nat (n mod 10))) ""
  end.

(** Proleptic Gregorian date [(year, month, day)] of a day number counted
    from 1970-01-01. *)
Definition civil_from_days (days : Z) : Z * Z * Z :=
  let z := days + 719468 in
  let era := z / 146097 in
  let doe := z - era * 146097 in
  let yoe := (doe - doe / 1460 + doe / 36524 - doe / 146096) / 365 in
  let doy := doe - (365 * yoe + yoe / 4 - yoe / 100) in
  let mp := (5 * doy + 2) / 153 in
  let d := doy - (153 * mp + 2) / 5 + 1 in
  let m := if mp <? 10 then mp + 3 else mp - 9 in
  let y := yoe + era * 400 + (if m <=? 2 then 1 else 0) in
  (y, m, d).

Definition year_string (y : Z) : string :=
  if (0 <=? y) && (y <=? 9999) then pad_dec 4 y
  else if y <? 0 then "-" ++ pad_dec 6 (- y)
  else "+" ++ pad_dec 6 y.

(** [toISOString t] is the text [YYYY-MM-DDTHH:mm:ss.sssZ] of the time
    value [t] (milliseconds since the epoch, UTC).  The built-in raises a
    RangeError beyond 8.64e15 ms from the epoch, which no reading of the
    clock reaches. *)
Definition toISOString (t : Z) : string :=
  let '(y, m, d) := civil_from_days (t / msPerDay) in
  let ms := t mod msPerDay in
  year_string y ++ "-" ++ pad_dec 2 m ++ "-" ++ pad_dec 2 d
    ++ "T" ++ pad_dec 2 (ms / 3600000)
    ++ ":" ++ pad_dec 2 (ms / 60000 mod 60)
    ++ ":" ++ pad_dec 2 (ms / 1000 mod 60)
    ++ "." ++ pad_dec 3 (ms mod 1000) ++ "Z".

End IsoDate.

(** ** Periods (lines 105-119) *)

(** A period is [null] (all time) or the ISO text of the start of a window. *)
Definition period : Type := option string.

Definition oneYear : Z := 365 * 24 * 60 * 60 * 1000.
Definition sixMonths : Z := oneYear / 2.

(** Body of the inner loop: one iteration for [(years, halfYear)]. *)
Definition pushPeriod (now years : Z) (periods : list period) (halfYear : Z)
  : list period :=
  if (years =? 0) && (halfYear =? 0) then periods
  else (periods
         ++ [Some (IsoDate.toISOString
                     (now - years * oneYear - halfYear * sixMonths))])%list.

(** The list [periods] after the two nested loops, for the clock reading
    [now]. *)
Definition buildPeriods (now : Z) : list period :=
  foldl (fun periods years => foldl (pushPeriod now years) periods (seqZ 0 2))
        [None] (seqZ 0 5).

(** ** Completions and errors *)

(** Values thrown by [fetchTopLanguages] itself. *)
Inductive Thrown : Type :=
| MissingParamError (missedParams : list string)
| TypeError (message : string).

(** Result of running a piece of code: it returns a value or throws. *)
Inductive Completion (A : Type) : Type :=
| Returns (a : A)
| Throws (e : Thrown).

Arguments Returns {A} a.
Arguments Throws {A} e.

Definition bind {A B : Type} (c : Completion A) (k : A -> Completion B)
  : Completion B :=
  match c with
  | Returns a => k a
  | Throws e => Throws e
  end.

Notation "'do' x <- c ; k" := (bind c (fun x => k))
  (at level 10, x name, c at level 100, k at level 200).

(** An error with which the network layer rejects. *)
Record JsError : Type := { err_name : string; err_message : string }.

(** The text of [e.message || e] inside a template literal: the message when
    it is not empty, otherwise [String(e)], which for an error with an empty
    message is its name. *)
Definition describeError (e : JsError) : string :=
  if String.eqb (err_message e) "" then err_name e else err_message e.

(** ** Payload of a response (lines 19-71) *)

Record LanguageNode : Type := { node_color : option string; node_name : string }.

Record LanguageEdge : Type := { edge_size : Z; edge_node : LanguageNode }.

(** [repo_languages] is [None] when [languages] or its [edges] is absent;
    [repo_nameWithOwner] is [None] when the field is absent. *)
Record Repository : Type := {
  repo_name : string;
  repo_nameWithOwner : option string;
  repo_languages : option (list LanguageEdge)
}.

Record ContributionsByRepository : Type := { repository : option Repository }.

Record ContributionsCollection : Type := {
  commitContributionsByRepository : list ContributionsByRepository;
  pullRequestContributionsByRepository : list ContributionsByRepository;
  issueContributionsByRepository : list ContributionsByRepository
}.

(** [res.data]: whether [errors] is truthy, and
    [data?.user?.contributionsCollection]. *)
Record Response : Type := {
  resp_errors : bool;
  resp_contributionsCollection : option ContributionsCollection
}.

Inductive FetchOutcome : Type :=
| Resolved (res : Response)
| Rejected (err : JsError).

(** The variables of one query. *)
Record Variables : Type := { login : string; from : option string }.

(** The network: what [retryer(contributionsFetcher, variables)] settles
    with. *)
Definition Network : Type := Variables -> FetchOutcome.

(** What the function does to the outside: the queries it issued and the
    lines it logged, oldest first. *)
Record World : Type := { requests : list Variables; logged : list string }.

Definition emptyWorld : World := {| requests := []; logged := [] |}.

Definition issue (v : Variables) (w : World) : World :=
  {| requests := (requests w ++ [v])%list; logged := logged w |}.

Definition logLine (line : string) (w : World) : World :=
  {| requests := requests w; logged := (logged w ++ [line])%list |}.

(** ** Insertion-ordered maps with string keys *)

Module OMap.

Section Ops.
Context {V : Type}.

Fixpoint get (m : list (string * V)) (k : string) : option V :=
  match m with
  | [] => None
  | (k', v) :: m' => if String.eqb k' k then Some v else get m' k
  end.

Definition has (m : list (string * V)) (k : string) : bool :=
  match get m k with Some _ => true | None => false end.

(** Setting a key that is present replaces its value in place; a new
    key goes to the end. *)
Fixpoint set (m : list (string * V)) (k : string) (v : V)
  : list (string * V) :=
  match m with
  | [] => [(k, v)]
  | (k', v') :: m' =>
      if String.eqb k' k then (k', v) :: m' else (k', v') :: set m' k v
  end.

Definition keys (m : list (string * V)) : list string := map fst m.

Definition values (m : list (string * V)) : list V := map snd m.

End Ops.

End OMap.

(** JavaScript truthiness of a string and of an optional string. *)
Definition truthy (s : string) : bool := negb (String.eqb s "").

Definition truthyOpt (o : option string) : bool :=
  match o with Some s => truthy s | None => false end.

(** ** One period's fetch (lines 124-151) *)

Definition periodLabel (fromDate : period) : string :=
  match fromDate with
  | Some d => if truthy d then d else "all time"
  | None => "all time"
  end.

Definition failureLine (fromDate : period) (e : JsError) : string :=
  "Failed to fetch contributions for period " ++ periodLabel fromDate
    ++ ": " ++ describeError e.

Definition periodVariables (username : string) (fromDate : period) : Variables :=
  {| login := username;
     from := if truthyOpt fromDate then fromDate else None |}.

Definition allContributions (contrib : ContributionsCollection)
  : list ContributionsByRepository :=
  (commitContributionsByRepository contrib
     ++ pullRequestContributionsByRepository contrib
     ++ issueContributionsByRepository contrib)%list.

(** The body of the callback mapped over [periods]: the new world and the
    value its promise resolves with. *)
Definition fetchPeriod (net : Network) (username : string) (fromDate : period)
    (w : World) : World * list ContributionsByRepository :=
  let variables := periodVariables username fromDate in
  let w1 := issue variables w in
  match net variables with
  | Resolved res =>
      if resp_errors res then (w1, [])
      else match resp_contributionsCollection res with
           | None => (w1, [])
           | Some contrib => (w1, allContributions contrib)
           end
  | Rejected err => (logLine (failureLine fromDate err) w1, [])
  end.

(** [Promise.all(periods.map(...))]: one result per period, in the order of
    [periods].  Each callback issues its query when [map] calls it, so the
    queries go out in the order of [periods]; the callbacks then complete in
    any order, and so may their log lines, which the model records in the
    order of [periods]. *)
Fixpoint fetchAll (net : Network) (username : string) (periods : list period)
    (w : World) : World * list (list ContributionsByRepository) :=
  match periods with
  | [] => (w, [])
  | fromDate :: rest =>
      let '(w1, collections) := fetchPeriod net username fromDate w in
      let '(w2, others) := fetchAll net username rest w1 in
      (w2, collections :: others)
  end.

(** ** Deduplication into [repoMap] (lines 157-168) *)

(** [repo.languages?.edges?.length] is a non-zero number. *)
Definition hasLanguageEdges (repo : Repository) : bool :=
  match repo_languages repo with
  | Some (_ :: _) => true
  | _ => false
  end.

(** [repo.nameWithOwner || repo.name] *)
Definition repoKey (repo : Repository) : string :=
  match repo_nameWithOwner repo with
  | Some qualified => if truthy qualified then qualified else repo_name repo
  | None => repo_name repo
  end.

(** Body of the inner loop over the items of one collection. *)
Definition dedupStep (repoMap : list (string * Repository))
    (item : ContributionsByRepository) : list (string * Repository) :=
  match repository item with
  | None => repoMap
  | Some repo =>
      if negb (hasLanguageEdges repo) then repoMap
      else
        let key := repoKey repo in
        if truthy key && negb (OMap.has repoMap key)
        then OMap.set repoMap key repo
        else repoMap
  end.

Definition dedupFrom (repoMap : list (string * Repository))
    (allCollections : list (list ContributionsByRepository))
  : list (string * Repository) :=
  foldl (fun m collections => foldl dedupStep m collections)
        repoMap allCollections.

Definition dedup (allCollections : list (list ContributionsByRepository))
  : list (string * Repository) :=
  dedupFrom [] allCollections.

(** ** Exclusion (lines 170-181) *)

(** The own enumerable and inherited members of a plain object that a
    property read can see: every member of [Object.prototype] is a function
    or an object, hence truthy. *)
Definition objectPrototypeKeys : list string :=
  [ "constructor"; "__proto__"; "hasOwnProperty"; "isPrototypeOf";
    "propertyIsEnumerable"; "toLocaleString"; "toString"; "valueOf";
    "__defineGetter__"; "__defineSetter__"; "__lookupGetter__";
    "__lookupSetter__" ].

(** [repoToHide[repoName] = true].  Assigning a boolean to [__proto__] is
    ignored by the inherited setter. *)
Definition hideRepo (repoToHide : gmap string bool) (repoName : string)
  : gmap string bool :=
  if String.eqb repoName "__proto__" then repoToHide
  else <[repoName := true]> repoToHide.

(** Truthiness of [repoToHide[repoName]]: an own property, or else a member
    inherited from [Object.prototype]. *)
Definition isHidden (repoToHide : gmap string bool) (repoName : string) : bool :=
  match repoToHide !! repoName with
  | Some b => b
  | None => bool_decide (repoName ∈ objectPrototypeKeys)
  end.

Definition buildRepoToHide (allExcludedRepos : list string) : gmap string bool :=
  foldl hideRepo ∅ allExcludedRepos.

(** [repoNodes] after the filter of line 181. *)
Definition visibleRepos (exclude_repo excludeRepositories : list string)
    (repoMap : list (string * Repository)) : list Repository :=
  let repoNodes := OMap.values repoMap in
  let allExcludedRepos := (exclude_repo ++ excludeRepositories)%list in
  let repoToHide := buildRepoToHide allExcludedRepos in
  filter (fun repo => negb (isHidden repoToHide (repo_name repo)) = true)
         repoNodes.

(** ** Aggregation (lines 183-213) *)

(** [node.languages.edges]: reading [edges] of an absent [languages]
    throws. *)
Definition languageEdges (node : Repository) : Completion (list LanguageEdge) :=
  match repo_languages node with
  | Some edges => Returns edges
  | None =>
      Throws (TypeError "Cannot read properties of null (reading 'edges')")
  end.

(** [.filter((node) => node.languages.edges.length > 0)] *)
Fixpoint filterNonEmpty (repoNodes : list Repository)
  : Completion (list Repository) :=
  match repoNodes with
  | [] => Returns []
  | node :: rest =>
      do edges <- languageEdges node;
      do kept <- filterNonEmpty rest;
      Returns (if (0 <? length edges)%nat then node :: kept else kept)
  end.

(** [.reduce((acc, curr) => curr.languages.edges.concat(acc), [])] *)
Fixpoint flattenEdges (acc : list LanguageEdge) (repoNodes : list Repository)
  : Completion (list LanguageEdge) :=
  match repoNodes with
  | [] => Returns acc
  | curr :: rest =>
      do edges <- languageEdges curr;
      flattenEdges (edges ++ acc)%list rest
  end.

(** An entry of the language table. *)
Record Lang : Type := {
  lang_name : string;
  lang_color : option string;
  lang_size : Z;
  lang_count : Z
}.

(** State of the second [reduce]: the accumulator object and the variable
    [repoCount] that its callback closes over. *)
Record FoldState : Type := {
  acc : list (string * Lang);
  repoCount : Z
}.

(** One call of the callback of the second [reduce]. *)
Definition foldStep (st : FoldState) (prev : LanguageEdge) : FoldState :=
  let name := node_name (edge_node prev) in
  let '(langSize, repoCount') :=
    match OMap.get (acc st) name with
    | Some entry =>
        if String.eqb name (lang_name entry)
        then (edge_size prev + lang_size entry, repoCount st + 1)
        else (edge_size prev, 1)
    | None => (edge_size prev, 1)
    end in
  {| acc := OMap.set (acc st) name
              {| lang_name := name;
                 lang_color := node_color (edge_node prev);
                 lang_size := langSize;
                 lang_count := repoCount' |};
     repoCount := repoCount' |}.

Definition foldEdges (edges : list LanguageEdge) : FoldState :=
  foldl foldStep {| acc := []; repoCount := 0 |} edges.

(** ** Scoring and ranking (lines 215-229) *)

(** [Math.pow(size, size_weight) * Math.pow(count, count_weight)] *)
Definition score (size_weight count_weight : nat) (entry : Lang) : Z :=
  lang_size entry ^ Z.of_nat size_weight
    * lang_count entry ^ Z.of_nat count_weight.

(** The [forEach] of line 215 overwrites the [size] of every entry. *)
Definition applyWeights (size_weight count_weight : nat)
    (repoNodes : list (string * Lang)) : list (string * Lang) :=
  map (fun '(name, entry) =>
         (name, {| lang_name := lang_name entry;
                   lang_color := lang_color entry;
                   lang_size := score size_weight count_weight entry;
                   lang_count := lang_count entry |}))
      repoNodes.

(** [repoNodes[key].size] *)
Definition sizeOf (repoNodes : list (string * Lang)) (key : string) : Z :=
  match OMap.get repoNodes key with
  | Some entry => lang_size entry
  | None => 0
  end.

(** The comparator of line 223. *)
Definition compareKeys (repoNodes : list (string * Lang)) (a b : string) : Z :=
  sizeOf repoNodes b - sizeOf repoNodes a.

(** [Array.prototype.sort] is stable; with a consistent comparator its
    result is the one of a stable insertion sort. *)
Fixpoint insertKey (cmp : string -> string -> Z) (x : string)
    (sorted : list string) : list string :=
  match sorted with
  | [] => [x]
  | y :: rest =>
      if cmp y x <? 0 then y :: insertKey cmp x rest else x :: y :: rest
  end.

Definition sortKeys (cmp : string -> string -> Z) (keys : list string)
  : list string :=
  foldr (insertKey cmp) [] keys.

(** The last [reduce]: [result[key] = repoNodes[key]]. *)
Definition collect (repoNodes : list (string * Lang)) (sortedKeys : list string)
  : list (string * Lang) :=
  foldl (fun result key =>
           match OMap.get repoNodes key with
           | Some entry => OMap.set result key entry
           | None => result
           end)
        [] sortedKeys.

Definition rank (repoNodes : list (string * Lang)) : list (string * Lang) :=
  collect repoNodes (sortKeys (compareKeys repoNodes) (OMap.keys repoNodes)).

(** ** The whole function (lines 93-230) *)

(** [node.languages.edges] of a repository that has languages. *)
Definition edgesOf (node : Repository) : list LanguageEdge :=
  default [] (repo_languages node).

(** Lines 170-229: from the deduplicated map to the ranked mapping. *)
Definition aggregate (exclude_repo excludeRepositories : list string)
    (size_weight count_weight : nat) (repoMap : list (string * Repository))
  : Completion (list (string * Lang)) :=
  let repoNodes := visibleRepos exclude_repo excludeRepositories repoMap in
  do nonEmpty <- filterNonEmpty repoNodes;
  do edges <- flattenEdges [] nonEmpty;
  let table := acc (foldEdges edges) in
  Returns (rank (applyWeights size_weight count_weight table)).

(** Everything after [Promise.all]: lines 157-229. *)
Definition processCollections (exclude_repo excludeRepositories : list string)
    (size_weight count_weight : nat)
    (allCollections : list (list ContributionsByRepository))
  : Completion (list (string * Lang)) :=
  aggregate exclude_repo excludeRepositories size_weight count_weight
            (dedup allCollections).

(** [fetchTopLanguages]: [excludeRepositories] is the list imported from the
    environment, [now] the reading of the clock, [net] the network; an
    absent [username] is [None]. *)
Definition fetchTopLanguages (net : Network) (excludeRepositories : list string)
    (now : Z) (username : option string) (exclude_repo : list string)
    (size_weight count_weight : nat) (w : World)
  : World * Completion (list (string * Lang)) :=
  if negb (truthyOpt username) then (w, Throws (MissingParamError ["username"]))
  else
    let login := default "" username in
    let periods := buildPeriods now in
    let '(w1, allCollections) := fetchAll net login periods w in
    (w1, processCollections exclude_repo excludeRepositories
           size_weight count_weight allCollections).

(** ** Responses as received

    The definitions above work on payloads in which every list element is
    an object.  The definitions below take the payload as the transport
    delivers it, where [null] may stand for the data of a response, for a
    contribution list, for an element of such a list, for an element of
    [edges] and for the [node] of an edge, and they keep the plain objects
    of lines 189-227 in the order in which JavaScript enumerates them.
    [None] is [null]; a field that is missing altogether behaves alike. *)

(** Where a TypeError is raised: reading a property of [null], or spreading
    a value that is not iterable. *)
Inductive TypeErrorSite : Type :=
| ReadOfNull (property : string)
| NotIterable (expression : string).

(** The message text that the engine gives to a TypeError. *)
Definition Engine : Type := TypeErrorSite -> string.

Record RawEdge : Type := { raw_size : Z; raw_node : option LanguageNode }.

Record RawRepository : Type := {
  raw_name : string;
  raw_nameWithOwner : option string;
  raw_languages : option (list (option RawEdge))
}.

Record RawItem : Type := { raw_repository : option RawRepository }.

Record RawContributions : Type := {
  raw_commitContributionsByRepository : option (list (option RawItem));
  raw_pullRequestContributionsByRepository : option (list (option RawItem));
  raw_issueContributionsByRepository : option (list (option RawItem))
}.

(** [res.data]: [errors] truthy or not, and
    [data?.user?.contributionsCollection]. *)
Record RawData : Type := {
  raw_errors : bool;
  raw_contributionsCollection : option RawContributions
}.

Record RawResponse : Type := { raw_data : option RawData }.

Inductive RawOutcome : Type :=
| RawResolved (res : RawResponse)
| RawRejected (err : JsError).

Definition RawNetwork : Type := Variables -> RawOutcome.

(** A monadic left fold: the loop stops at the first throw. *)
Fixpoint foldM {A B : Type} (f : A -> B -> Completion A) (a : A) (l : list B)
  : Completion A :=
  match l with
  | [] => Returns a
  | b :: rest => do a' <- f a b; foldM f a' rest
  end.

(** What the [try] block of lines 125-142 does with a settled fetch: the
    value it returns, or the error that the [catch] block receives. *)
Definition tryPeriod (engine : Engine) (outcome : RawOutcome)
  : list (option RawItem) + JsError :=
  match outcome with
  | RawRejected err => inr err
  | RawResolved res =>
      match raw_data res with
      | None =>
          inr {| err_name := "TypeError";
                 err_message := engine (ReadOfNull "errors") |}
      | Some data =>
          if raw_errors data then inl []
          else
            match raw_contributionsCollection data with
            | None => inl []
            | Some contrib =>
                match raw_commitContributionsByRepository contrib with
                | None =>
                    inr {| err_name := "TypeError";
                           err_message :=
                             engine (NotIterable
                                       "contrib.commitContributionsByRepository") |}
                | Some commits =>
                    match raw_pullRequestContributionsByRepository contrib with
                    | None =>
                        inr {| err_name := "TypeError";
                               err_message :=
                                 engine (NotIterable
                                           "contrib.pullRequestContributionsByRepository") |}
                    | Some pulls =>
                        match raw_issueContributionsByRepository contrib with
                        | None =>
                            inr {| err_name := "TypeError";
                                   err_message :=
                                     engine (NotIterable
                                               "contrib.issueContributionsByRepository") |}
                        | Some issues => inl (commits ++ pulls ++ issues)%list
                        end
                    end
                end
            end
      end
  end.

(** The callback of lines 124-151 on the payload as received. *)
Definition fetchPeriodRaw (engine : Engine) (net : RawNetwork)
    (username : string) (fromDate : period) (w : World)
  : World * list (option RawItem) :=
  let variables := periodVariables username fromDate in
  let w1 := issue variables w in
  match tryPeriod engine (net variables) with
  | inl collections => (w1, collections)
  | inr err => (logLine (failureLine fromDate err) w1, [])
  end.

Fixpoint fetchAllRaw (engine : Engine) (net : RawNetwork) (username : string)
    (periods : list period) (w : World)
  : World * list (list (option RawItem)) :=
  match periods with
  | [] => (w, [])
  | fromDate :: rest =>
      let '(w1, collections) := fetchPeriodRaw engine net username fromDate w in
      let '(w2, others) := fetchAllRaw engine net username rest w1 in
      (w2, collections :: others)
  end.

(** [repo.languages?.edges?.length] is a non-zero number. *)
Definition rawHasLanguageEdges (repo : RawRepository) : bool :=
  match raw_languages repo with
  | Some (_ :: _) => true
  | _ => false
  end.

(** [repo.nameWithOwner || repo.name] *)
Definition rawRepoKey (repo : RawRepository) : string :=
  match raw_nameWithOwner repo with
  | Some qualified => if truthy qualified then qualified else raw_name repo
  | None => raw_name repo
  end.

(** Body of the inner loop of lines 158-167: reading [item.repository]
    throws when the item is [null]. *)
Definition rawDedupStep (engine : Engine)
    (repoMap : list (string * RawRepository)) (item : option RawItem)
  : Completion (list (string * RawRepository)) :=
  match item with
  | None => Throws (TypeError (engine (ReadOfNull "repository")))
  | Some item =>
      Returns
        match raw_repository item with
        | None => repoMap
        | Some repo =>
            if negb (rawHasLanguageEdges repo) then repoMap
            else
              let key := rawRepoKey repo in
              if truthy key && negb (OMap.has repoMap key)
              then OMap.set repoMap key repo
              else repoMap
        end
  end.

Definition rawDedupFrom (engine : Engine)
    (repoMap : list (string * RawRepository))
    (allCollections : list (list (option RawItem)))
  : Completion (list (string * RawRepository)) :=
  foldM (fun m collections => foldM (rawDedupStep engine) m collections)
        repoMap allCollections.

(** [repoNodes] after the filter of line 181. *)
Definition rawVisibleRepos (exclude_repo excludeRepositories : list string)
    (repoMap : list (string * RawRepository)) : list RawRepository :=
  let repoNodes := OMap.values repoMap in
  let allExcludedRepos := (exclude_repo ++ excludeRepositories)%list in
  let repoToHide := buildRepoToHide allExcludedRepos in
  filter (fun repo => negb (isHidden repoToHide (raw_name repo)) = true)
         repoNodes.

Definition rawLanguageEdges (engine : Engine) (node : RawRepository)
  : Completion (list (option RawEdge)) :=
  match raw_languages node with
  | Some edges => Returns edges
  | None => Throws (TypeError (engine (ReadOfNull "edges")))
  end.

(** Line 186. *)
Fixpoint rawFilterNonEmpty (engine : Engine) (repoNodes : list RawRepository)
  : Completion (list RawRepository) :=
  match repoNodes with
  | [] => Returns []
  | node :: rest =>
      do edges <- rawLanguageEdges engine node;
      do kept <- rawFilterNonEmpty engine rest;
      Returns (if (0 <? length edges)%nat then node :: kept else kept)
  end.

(** Line 188. *)
Fixpoint rawFlattenEdges (engine : Engine) (acc : list (option RawEdge))
    (repoNodes : list RawRepository) : Completion (list (option RawEdge)) :=
  match repoNodes with
  | [] => Returns acc
  | curr :: rest =>
      do edges <- rawLanguageEdges engine curr;
      rawFlattenEdges engine (edges ++ acc)%list rest
  end.

(** *** Plain objects

    The own properties of a plain object, in the order in which
    [Object.keys], spread and [for-in] enumerate them: first the keys that
    are array indices, in ascending numeric order, then the other keys in
    the order of their creation. *)

Module JsObject.

Definition digitValue (c : Ascii.ascii) : option N :=
  let n := Ascii.N_of_ascii c in
  if ((48 <=? n) && (n <=? 57))%N then Some (n - 48)%N else None.

Fixpoint digitsValue (value : N) (s : string) : option N :=
  match s with
  | EmptyString => Some value
  | String c rest =>
      match digitValue c with
      | Some d => digitsValue (10 * value + d)%N rest
      | None => None
      end
  end.

(** The number that a key denotes when it is an array index: a decimal
    numeral without leading zero, at most 2^32 - 2. *)
Definition arrayIndex (key : string) : option N :=
  match key with
  | EmptyString => None
  | String c rest =>
      if (Ascii.N_of_ascii c =? 48)%N
      then (if String.eqb rest "" then Some 0%N else None)
      else match digitsValue 0 key with
           | Some n => if (n <=? 4294967294)%N then Some n else None
           | None => None
           end
  end.

(** Creation of the array-index property [key], of number [n]. *)
Fixpoint insertIndex {V : Type} (n : N) (key : string) (v : V)
    (o : list (string * V)) : list (string * V) :=
  match o with
  | [] => [(key, v)]
  | (key', v') :: rest =>
      match arrayIndex key' with
      | Some n' =>
          if (n' <? n)%N then (key', v') :: insertIndex n key v rest
          else if (n' =? n)%N then (key', v) :: rest
          else (key, v) :: (key', v') :: rest
      | None => (key, v) :: (key', v') :: rest
      end
  end.

(** Definition of an own data property, as a computed key of an object
    literal does: a property that exists keeps its place. *)
Definition define {V : Type} (o : list (string * V)) (key : string) (v : V)
  : list (string * V) :=
  match arrayIndex key with
  | Some n => insertIndex n key v o
  | None => OMap.set o key v
  end.

(** The assignment [o[key] = v] to an object created by [{}], for [v] an
    object: the key [__proto__] reaches the setter inherited from
    [Object.prototype], which changes the prototype and creates no
    property. *)
Definition assign {V : Type} (o : list (string * V)) (key : string) (v : V)
  : list (string * V) :=
  if String.eqb key "__proto__" then o else define o key v.

(** A key that a plain object treats like a [Map] does. *)
Definition plain (key : string) : bool :=
  match arrayIndex key with
  | Some _ => false
  | None => negb (String.eqb key "__proto__")
  end.

End JsObject.

(** *** Aggregation and ranking on plain objects *)

(** The callback of lines 189-213 for an edge that is an object with a
    node: [{...acc, [name]: entry}] copies the properties of [acc] in their
    order and defines the property [name]. *)
Definition foldStepObject (st : FoldState) (prev : LanguageEdge) : FoldState :=
  let name := node_name (edge_node prev) in
  let '(langSize, repoCount') :=
    match OMap.get (acc st) name with
    | Some entry =>
        if String.eqb name (lang_name entry)
        then (edge_size prev + lang_size entry, repoCount st + 1)
        else (edge_size prev, 1)
    | None => (edge_size prev, 1)
    end in
  {| acc := JsObject.define (acc st) name
              {| lang_name := name;
                 lang_color := node_color (edge_node prev);
                 lang_size := langSize;
                 lang_count := repoCount' |};
     repoCount := repoCount' |}.

(** The callback of lines 189-213 on an element of the flattened list:
    reading [prev.size] throws when the edge is [null], reading
    [prev.node.name] throws when its node is. *)
Definition rawFoldStep (engine : Engine) (st : FoldState)
    (prev : option RawEdge) : Completion FoldState :=
  match prev with
  | None => Throws (TypeError (engine (ReadOfNull "size")))
  | Some edge =>
      match raw_node edge with
      | None => Throws (TypeError (engine (ReadOfNull "name")))
      | Some node =>
          Returns (foldStepObject st {| edge_size := raw_size edge;
                                        edge_node := node |})
      end
  end.

(** The last [reduce] (lines 224-227) on a plain object. *)
Definition collectObject (repoNodes : list (string * Lang))
    (sortedKeys : list string) : list (string * Lang) :=
  foldl (fun result key =>
           match OMap.get repoNodes key with
           | Some entry => JsObject.assign result key entry
           | None => result
           end)
        [] sortedKeys.

(** Lines 222-227 on the table [repoNodes], given in the order of its
    enumeration. *)
Definition rankObject (repoNodes : list (string * Lang))
  : list (string * Lang) :=
  collectObject repoNodes
    (sortKeys (compareKeys repoNodes) (OMap.keys repoNodes)).

(** Lines 170-229 on the payload as received. *)
Definition rawAggregate (engine : Engine)
    (exclude_repo excludeRepositories : list string)
    (size_weight count_weight : nat)
    (repoMap : list (string * RawRepository))
  : Completion (list (string * Lang)) :=
  let repoNodes := rawVisibleRepos exclude_repo excludeRepositories repoMap in
  do nonEmpty <- rawFilterNonEmpty engine repoNodes;
  do edges <- rawFlattenEdges engine [] nonEmpty;
  do st <- foldM (rawFoldStep engine) {| acc := []; repoCount := 0 |} edges;
  Returns (rankObject (applyWeights size_weight count_weight (acc st))).

(** Lines 157-229 on the payload as received. *)
Definition rawProcessCollections (engine : Engine)
    (exclude_repo excludeRepositories : list string)
    (size_weight count_weight : nat)
    (allCollections : list (list (option RawItem)))
  : Completion (list (string * Lang)) :=
  do repoMap <- rawDedupFrom engine [] allCollections;
  rawAggregate engine exclude_repo excludeRepositories size_weight
               count_weight repoMap.

(** [fetchTopLanguages] on the payload as received. *)
Definition fetchTopLanguagesRaw (engine : Engine) (net : RawNetwork)
    (excludeRepositories : list string) (now : Z) (username : option string)
    (exclude_repo : list string) (size_weight count_weight : nat) (w : World)
  : World * Completion (list (string * Lang)) :=
  if negb (truthyOpt username) then (w, Throws (MissingParamError ["username"]))
  else
    let login := default "" username in
    let periods := buildPeriods now in
    let '(w1, allCollections) := fetchAllRaw engine net login periods w in
    (w1, rawProcessCollections engine exclude_repo excludeRepositories
           size_weight count_weight allCollections).

(** *** Payloads without [null] *)

Definition embedEdge (edge : LanguageEdge) : option RawEdge :=
  Some {| raw_size := edge_size edge; raw_node := Some (edge_node edge) |}.

Definition embedRepository (repo : Repository) : RawRepository :=
  {| raw_name := repo_name repo;
     raw_nameWithOwner := repo_nameWithOwner repo;
     raw_languages := map embedEdge <$> repo_languages repo |}.

Definition embedItem (item : ContributionsByRepository) : option RawItem :=
  Some {| raw_repository := embedRepository <$> repository item |}.

Definition embedContributions (contrib : ContributionsCollection)
  : RawContributions :=
  {| raw_commitContributionsByRepository :=
       Some (map embedItem (commitContributionsByRepository contrib));
     raw_pullRequestContributionsByRepository :=
       Some (map embedItem (pullRequestContributionsByRepository contrib));
     raw_issueContributionsByRepository :=
       Some (map embedItem (issueContributionsByRepository contrib)) |}.

Definition embedResponse (res : Response) : RawResponse :=
  {| raw_data :=
       Some {| raw_errors := resp_errors res;
               raw_contributionsCollection :=
                 embedContributions <$> resp_contributionsCollection res |} |}.

Definition embedNetwork (net : Network) : RawNetwork :=
  fun variables =>
    match net variables with
    | Resolved res => RawResolved (embedResponse res)
    | Rejected err => RawRejected err
    end.

(** ** Notions of the specification *)

(** A record that the scan may insert: repository present, at least one
    language edge, non-empty key. *)
Definition candidate (item : ContributionsByRepository)
  : option (string * Repository) :=
  match repository item with
  | Some repo =>
      if hasLanguageEdges repo && truthy (repoKey repo)
      then Some (repoKey repo, repo) else None
  | None => None
  end.

(** The insertable records of all periods, in scan order, with their keys. *)
Definition candidates (allCollections : list (list ContributionsByRepository))
  : list (string * Repository) :=
  omap candidate (concat allCollections).

(** The keys of all records of all periods whose repository is present. *)
Definition unionKeys (allCollections : list (list ContributionsByRepository))
  : list string :=
  omap (fun item => repoKey <$> repository item) (concat allCollections).

(** Number of distinct strings of a list. *)
Definition distinct (l : list string) : nat :=
  size (list_to_set l : gset string).

(** The first record of the scan that carries the key [k]. *)
Definition firstOccurrence (k : string)
    (allCollections : list (list ContributionsByRepository))
  : option Repository :=
  OMap.get (omap (fun item => (fun repo => (repoKey repo, repo))
                                <$> repository item)
                 (concat allCollections)) k.

(** The error, if any, with which the fetch of a period rejects. *)
Definition periodRejection (net : Network) (username : string)
    (fromDate : period) : option JsError :=
  match net (periodVariables username fromDate) with
  | Rejected err => Some err
  | Resolved _ => None
  end.

(** A period's fetch fails: it rejects, or its response carries GraphQL
    errors or lacks [contributionsCollection]. *)
Definition periodFails (net : Network) (username : string)
    (fromDate : period) : bool :=
  match net (periodVariables username fromDate) with
  | Rejected _ => true
  | Resolved res =>
      resp_errors res
      || match resp_contributionsCollection res with
         | Some _ => false
         | None => true
         end
  end.

(** What a period contributes to [allCollections]. *)
Definition periodResult (net : Network) (username : string)
    (fromDate : period) : list ContributionsByRepository :=
  (fetchPeriod net username fromDate emptyWorld).2.

(** The edges of a list of repositories as line 188 orders them: the last
    repository first. *)
Definition flatEdges (repoNodes : list Repository) : list LanguageEdge :=
  foldl (fun acc curr => (edgesOf curr ++ acc)%list) [] repoNodes.

(** The language name of an edge. *)
Definition edgeName (edge : LanguageEdge) : string :=
  node_name (edge_node edge).

(** Plain sum of the byte sizes of the edges of language [name]. *)
Definition rawSize (name : string) (edges : list LanguageEdge) : Z :=
  foldr (fun edge total =>
           if String.eqb (edgeName edge) name then edge_size edge + total
           else total)
        0 edges.

(** The same sum over the edges of a list of repositories. *)
Definition rawSizeOver (name : string) (repos : list Repository) : Z :=
  foldr (fun repo total => rawSize name (edgesOf repo) + total) 0 repos.

(** Every entry of a table is filed under its own name. *)
Definition keyed (table : list (string * Lang)) : Prop :=
  ∀ key entry, (key, entry) ∈ table → lang_name entry = key.

(** Non-increasing order of the [size] field along a mapping. *)
Definition descending (table : list (string * Lang)) : Prop :=
  StronglySorted (fun a b => lang_size a.2 >= lang_size b.2) table.

(** The entries of a mapping whose [size] field is [s], in order. *)
Definition withSize (s : Z) (table : list (string * Lang))
  : list (string * Lang) :=
  filter (fun kv => lang_size kv.2 = s) table.

(** The entry filed under [key], or an empty entry. *)
Definition entryOf (table : list (string * Lang)) (key : string) : Lang :=
  default {| lang_name := key; lang_color := None;
             lang_size := 0; lang_count := 0 |}
          (OMap.get table key).

(** The repositories of the deduplicated map whose name is in neither
    exclusion list. *)
Definition nonExcluded (exclude_repo excludeRepositories : list string)
    (repoMap : list (string * Repository)) : list Repository :=
  filter (fun repo => repo_name repo
                        ∉ (exclude_repo ++ excludeRepositories)%list)
         (OMap.values repoMap).

(** Insertion of a candidate unless its key is taken. *)
Definition insertFirst (repoMap : list (string * Repository))
    (c : string * Repository) : list (string * Repository) :=
  if OMap.has repoMap c.1 then repoMap else (repoMap ++ [c])%list.

(** The distinct strings of a list, each at the place of its first
    occurrence. *)
Fixpoint nubFirst (l : list string) : list string :=
  match l with
  | [] => []
  | k :: rest => k :: filter (fun k' => k' ≠ k) (nubFirst rest)
  end.




(** The error that the [catch] block of a period receives, if any. *)
Definition periodCaught (engine : Engine) (net : RawNetwork)
    (username : string) (fromDate : period) : option JsError :=
  match tryPeriod engine (net (periodVariables username fromDate)) with
  | inl _ => None
  | inr err => Some err
  end.

(** What a period contributes to [allCollections], as received. *)
Definition rawPeriodResult (engine : Engine) (net : RawNetwork)
    (username : string) (fromDate : period) : list (option RawItem) :=
  match tryPeriod engine (net (periodVariables username fromDate)) with
  | inl collections => collections
  | inr _ => []
  end.

(** A map of repositories without [null], as received. *)
Definition embedMap (repoMap : list (string * Repository))
  : list (string * RawRepository) :=
  map (fun kr => (kr.1, embedRepository kr.2)) repoMap.

(** ** Sample data *)

Definition sampleEdge (name : string) (bytes : Z) : LanguageEdge :=
  {| edge_size := bytes;
     edge_node := {| node_color := None; node_name := name |} |}.

(** A repository of owner [u] with the given short name. *)
Definition sampleRepo (name : string) (languages : option (list LanguageEdge))
  : Repository :=
  {| repo_name := name;
     repo_nameWithOwner := Some ("u/" ++ name);
     repo_languages := languages |}.

Definition sampleItem (name : string) (languages : option (list LanguageEdge))
  : ContributionsByRepository :=
  {| repository := Some (sampleRepo name languages) |}.

(** Three periods: repository [a] without language edges, then [a] again
    with one edge, then [b] without languages. *)
Definition overlappingPeriods : list (list ContributionsByRepository) :=
  [ [sampleItem "a" (Some [])];
    [sampleItem "a" (Some [sampleEdge "X" 10])];
    [sampleItem "b" None] ].

(** A network whose every response carries GraphQL errors. *)
Definition erroringNet : Network :=
  fun _ => Resolved {| resp_errors := true;
                       resp_contributionsCollection := None |}.

Definition respond (items : list ContributionsByRepository) : FetchOutcome :=
  Resolved
    {| resp_errors := false;
       resp_contributionsCollection :=
         Some {| commitContributionsByRepository := items;
                 pullRequestContributionsByRepository := [];
                 issueContributionsByRepository := [] |} |}.

(** A network that answers the all-time query with two repositories and
    rejects every windowed query. *)
Definition flakyNet : Network :=
  fun variables =>
    match from variables with
    | None =>
        respond [ sampleItem "A" (Some [sampleEdge "X" 100]);
                  sampleItem "B" (Some [sampleEdge "X" 50; sampleEdge "Y" 30]) ]
    | Some _ => Rejected {| err_name := "Error"; err_message := "boom" |}
    end.


(** A scored table with a tie between [Y] and [Z]. *)
Definition tiedTable : list (string * Lang) :=
  [ ("Y", {| lang_name := "Y"; lang_color := None;
             lang_size := 30; lang_count := 1 |});
    ("X", {| lang_name := "X"; lang_color := None;
             lang_size := 150; lang_count := 2 |});
    ("Z", {| lang_name := "Z"; lang_color := None;
             lang_size := 30; lang_count := 1 |}) ].

(** One period with a repository named [constructor] and a repository
    named [B], both with edges of language [X]. *)
Definition shadowedPeriods : list (list ContributionsByRepository) :=
  [ [ sampleItem "constructor" (Some [sampleEdge "X" 100]);
      sampleItem "B" (Some [sampleEdge "X" 50]) ] ].

(** A network that answers the all-time query with [shadowedPeriods] and
    every windowed query with no contribution. *)
Definition shadowedNet : Network :=
  fun variables =>
    match from variables with
    | None =>
        respond [ sampleItem "constructor" (Some [sampleEdge "X" 100]);
                  sampleItem "B" (Some [sampleEdge "X" 50]) ]
    | Some _ => respond []
    end.

(** Two maps that differ in the repository named [A] only. *)
Definition mapWithA : list (string * Repository) :=
  [ ("u/A", sampleRepo "A" (Some [sampleEdge "X" 100]));
    ("u/B", sampleRepo "B" (Some [sampleEdge "X" 50; sampleEdge "Y" 30])) ].

Definition mapWithOtherA : list (string * Repository) :=
  [ ("u/A", sampleRepo "A" (Some [sampleEdge "Z" 999]));
    ("u/B", sampleRepo "B" (Some [sampleEdge "X" 50; sampleEdge "Y" 30])) ].

(** A network with the all-time answer of [flakyNet] whose windowed
    answers carry GraphQL errors instead of rejecting. *)
Definition quietNet : Network :=
  fun variables =>
    match from variables with
    | None => flakyNet variables
    | Some _ => erroringNet variables
    end.


(** One period with three repositories; with the default weights [X], of
    160 bytes, comes before [Y], of 37 bytes. *)
Definition threeRepositories : list (list ContributionsByRepository) :=
  [ [ sampleItem "A" (Some [sampleEdge "Y" 30; sampleEdge "X" 100]);
      sampleItem "B" (Some [sampleEdge "X" 60]);
      sampleItem "C" (Some [sampleEdge "Y" 7]) ] ].

(** Message texts in the style of V8. *)
Definition sampleEngine : Engine :=
  fun site =>
    match site with
    | ReadOfNull property =>
        "Cannot read properties of null (reading '" ++ property ++ "')"
    | NotIterable expression => expression ++ " is not iterable"
    end.

Definition sampleRawEdge (name : string) (bytes : Z) : option RawEdge :=
  Some {| raw_size := bytes;
          raw_node := Some {| node_color := None; node_name := name |} |}.

Definition sampleRawItem (name : string) (edges : list (option RawEdge))
  : option RawItem :=
  Some {| raw_repository :=
            Some {| raw_name := name;
                    raw_nameWithOwner := Some ("u/" ++ name);
                    raw_languages := Some edges |} |}.

(** A network that answers the all-time query with the given commit
    contributions and every windowed query with none. *)
Definition allTimeNet (items : list (option RawItem)) : RawNetwork :=
  fun variables =>
    RawResolved
      {| raw_data :=
           Some {| raw_errors := false;
                   raw_contributionsCollection :=
                     Some {| raw_commitContributionsByRepository :=
                               Some match from variables with
                                    | None => items
                                    | Some _ => []
                                    end;
                             raw_pullRequestContributionsByRepository :=
                               Some [];
                             raw_issueContributionsByRepository :=
                               Some [] |} |} |}.

(** One repository whose [edges] end with [null]. *)
Definition nullEdgeItems : list (option RawItem) :=
  [ sampleRawItem "A" [sampleRawEdge "X" 100; None] ].

(** A repository followed by a [null] element of the contribution list. *)
Definition nullItemItems : list (option RawItem) :=
  [ sampleRawItem "A" [sampleRawEdge "X" 100]; None ].

(** One repository with an edge whose [node] is [null]. *)
Definition nodelessEdgeItems : list (option RawItem) :=
  [ sampleRawItem "A" [Some {| raw_size := 100; raw_node := None |}] ].

(** One repository with 100 bytes of a language named [X] and 5 bytes of a
    language named [7]. *)
Definition indexNamedItems : list (option RawItem) :=
  [ sampleRawItem "A" [sampleRawEdge "X" 100; sampleRawEdge "7" 5] ].

(** The scored table of that repository, as the object enumerates it. *)
Definition indexNamedTable : list (string * Lang) :=
  [ ("7", {| lang_name := "7"; lang_color := None;
             lang_size := 5; lang_count := 1 |});
    ("X", {| lang_name := "X"; lang_color := None;
             lang_size := 100; lang_count := 1 |}) ].

(** A network in which the all-time response has no data, the first window
    lacks the list of issue contributions, the second carries GraphQL
    errors, and the other fetches reject. *)
Definition brokenNet : RawNetwork :=
  fun variables =>
    match from variables with
    | None => RawResolved {| raw_data := None |}
    | Some d =>
        if String.eqb d (IsoDate.toISOString (1700000000000 - 1 * sixMonths))
        then RawResolved
               {| raw_data :=
                    Some {| raw_errors := false;
                            raw_contributionsCollection :=
                              Some {| raw_commitContributionsByRepository :=
                                        Some [];
                                      raw_pullRequestContributionsByRepository :=
                                        Some [];
                                      raw_issueContributionsByRepository :=
                                        None |} |} |}
        else if String.eqb d
                  (IsoDate.toISOString (1700000000000 - 2 * sixMonths))
        then RawResolved
               {| raw_data :=
                    Some {| raw_errors := true;
                            raw_contributionsCollection := None |} |}
        else RawRejected {| err_name := "Error"; err_message := "boom" |}
    end.

(** * Properties *)

(** ** Period planner *)

Example toISOString_epoch :
  IsoDate.toISOString 0 = "1970-01-01T00:00:00.000Z".
Proof. reflexivity. Qed.

Example toISOString_2023 :
  IsoDate.toISOString 1700000000123 = "2023-11-14T22:13:20.123Z".
Proof. vm_compute. reflexivity. Qed.

Example toISOString_leap :
  IsoDate.toISOString 1709164800000 = "2024-02-29T00:00:00.000Z".
Proof. vm_compute. reflexivity. Qed.

Example toISOString_before_epoch :
  IsoDate.toISOString (-1) = "1969-12-31T23:59:59.999Z".
Proof. vm_compute. reflexivity. Qed.

Lemma oneYear_sixMonths : oneYear = 2 * sixMonths.
Proof. reflexivity. Qed.

Lemma pushPeriod_skip now periods : pushPeriod now 0 periods 0 = periods.
Proof. reflexivity. Qed.

Lemma pushPeriod_push now years halfYear periods :
  (years, halfYear) ≠ (0, 0) →
  pushPeriod now years periods halfYear
  = (periods ++ [Some (IsoDate.toISOString
                         (now - (2 * years + halfYear) * sixMonths))])%list.
Proof.
  intros Hne. unfold pushPeriod.
  destruct ((years =? 0) && (halfYear =? 0)) eqn:E.
  - apply andb_true_iff in E as [Hy Hh].
    apply Z.eqb_eq in Hy, Hh. congruence.
  - rewrite oneYear_sixMonths.
    replace (now - years * (2 * sixMonths) - halfYear * sixMonths)
      with (now - (2 * years + halfYear) * sixMonths) by lia.
    reflexivity.
Qed.

Lemma buildPeriods_unfold now :
  buildPeriods now
  = None :: map (fun k => Some (IsoDate.toISOString (now - k * sixMonths)))
                (seqZ 1 9).
Proof.
  unfold buildPeriods.
  change (seqZ 0 5) with [0; 1; 2; 3; 4].
  change (seqZ 0 2) with [0; 1].
  change (seqZ 1 9) with [1; 2; 3; 4; 5; 6; 7; 8; 9].
  cbn [foldl map].
  rewrite pushPeriod_skip.
  rewrite !pushPeriod_push by discriminate.
  reflexivity.
Qed.

Lemma buildPeriods_length now : length (buildPeriods now) = 10%nat.
Proof. rewrite buildPeriods_unfold. reflexivity. Qed.

(** C1, as amended: the list starts with the all-time period and continues
    with exactly nine window starts, [now - k * sixMonths] for
    [k = 1, ..., 9], six months (half of 365 days) apart, the oldest four and
    a half years back; the current half-year is skipped. *)
Theorem buildPeriods_windows (now : Z) :
  buildPeriods now
  = None :: map (fun k => Some (IsoDate.toISOString (now - k * sixMonths)))
                (seqZ 1 9)
  ∧ length (buildPeriods now) = 10%nat.
Proof.
  split; [apply buildPeriods_unfold | apply buildPeriods_length].
Qed.

(** C1, as stated, fails: ten entries in all, so nine windows after the
    all-time period, not ten. *)
Lemma buildPeriods_not_ten_windows :
  length (buildPeriods 1700000000000) = 10%nat
  ∧ ¬ (∃ starts : list Z,
         length starts = 10%nat
         ∧ buildPeriods 1700000000000
           = None :: map (fun t => Some (IsoDate.toISOString t)) starts).
Proof.
  split; [apply buildPeriods_length|].
  intros (starts & Hlen & Heq).
  apply (f_equal length) in Heq.
  rewrite buildPeriods_length in Heq.
  cbn [length] in Heq. rewrite length_map, Hlen in Heq. discriminate.
Qed.

(** ** Facts about ordered maps *)

Section OMapFacts.
Context {V : Type}.
Implicit Types (m : list (string * V)) (k : string) (v : V).

Lemma get_app m1 m2 k :
  OMap.get (m1 ++ m2)%list k
  = match OMap.get m1 k with Some v => Some v | None => OMap.get m2 k end.
Proof.
  induction m1 as [|[k' v'] m1 IH]; cbn; [reflexivity|].
  destruct (String.eqb k' k); [reflexivity | exact IH].
Qed.

Lemma get_None_keys m k : OMap.get m k = None ↔ k ∉ OMap.keys m.
Proof.
  induction m as [|[k' v'] m IH]; cbn.
  - split; [intros _; apply not_elem_of_nil | reflexivity].
  - rewrite not_elem_of_cons. destruct (String.eqb_spec k' k) as [->|Hne].
    + split; [discriminate | intros [? _]; done].
    + rewrite IH. split; [intros ?; split; [congruence | assumption] | intros [_ ?]; assumption].
Qed.

Lemma has_false_keys m k : OMap.has m k = false ↔ k ∉ OMap.keys m.
Proof.
  rewrite <- get_None_keys. unfold OMap.has.
  destruct (OMap.get m k); split; congruence.
Qed.

Lemma has_true_keys m k : OMap.has m k = true ↔ k ∈ OMap.keys m.
Proof.
  destruct (OMap.has m k) eqn:E.
  - split; [intros _ | reflexivity].
    destruct (decide (k ∈ OMap.keys m)) as [|Hn]; [assumption|].
    apply has_false_keys in Hn. congruence.
  - apply has_false_keys in E. split; [discriminate | contradiction].
Qed.

Lemma set_fresh m k v : OMap.has m k = false → OMap.set m k v = (m ++ [(k, v)])%list.
Proof.
  unfold OMap.has. induction m as [|[k' v'] m IH]; cbn; [reflexivity|].
  destruct (String.eqb k' k); [discriminate|].
  intros H. rewrite IH by exact H. reflexivity.
Qed.

Lemma keys_set_present m k v :
  OMap.has m k = true → OMap.keys (OMap.set m k v) = OMap.keys m.
Proof.
  unfold OMap.has. induction m as [|[k' v'] m IH]; cbn; [discriminate|].
  destruct (String.eqb k' k); [reflexivity|].
  intros H. cbn. f_equal. apply IH, H.
Qed.

Lemma get_set m k v k' :
  OMap.get (OMap.set m k v) k' = if String.eqb k k' then Some v else OMap.get m k'.
Proof.
  induction m as [|[k0 v0] m IH]; cbn.
  - reflexivity.
  - destruct (String.eqb_spec k0 k) as [->|Hne]; cbn.
    + destruct (String.eqb k k'); reflexivity.
    + destruct (String.eqb_spec k0 k') as [->|Hne'].
      * destruct (String.eqb_spec k k'); [congruence | reflexivity].
      * exact IH.
Qed.

Lemma get_Some_elem m k v : OMap.get m k = Some v → (k, v) ∈ m.
Proof.
  induction m as [|[k' v'] m IH]; cbn; [discriminate|].
  destruct (String.eqb_spec k' k) as [->|Hne].
  - intros [= ->]. apply list_elem_of_here.
  - intros H. apply list_elem_of_further, IH, H.
Qed.

Lemma get_NoDup_elem m k v :
  NoDup (OMap.keys m) → (k, v) ∈ m → OMap.get m k = Some v.
Proof.
  induction m as [|[k' v'] m IH]; cbn; intros Hnd Hin.
  - apply elem_of_nil in Hin as [].
  - apply NoDup_cons in Hnd as [Hk' Hnd].
    apply elem_of_cons in Hin as [[= -> ->]|Hin].
    + rewrite String.eqb_refl. reflexivity.
    + destruct (String.eqb_spec k' k) as [->|Hne]; [|apply IH; assumption].
      exfalso. apply Hk'. apply list_elem_of_fmap. exists (k, v). split; [reflexivity | assumption].
Qed.

End OMapFacts.

(** ** Deduplication *)

Lemma dedupStep_candidate repoMap item :
  dedupStep repoMap item
  = match candidate item with
    | Some c => insertFirst repoMap c
    | None => repoMap
    end.
Proof.
  unfold dedupStep, candidate, insertFirst.
  destruct (repository item) as [repo|]; [|reflexivity].
  destruct (hasLanguageEdges repo); cbn; [|reflexivity].
  destruct (truthy (repoKey repo)); cbn; [|reflexivity].
  destruct (OMap.has repoMap (repoKey repo)) eqn:E; cbn; [reflexivity|].
  apply set_fresh, E.
Qed.

Lemma foldl_dedupStep repoMap items :
  foldl dedupStep repoMap items = foldl insertFirst repoMap (omap candidate items).
Proof.
  revert repoMap. induction items as [|item items IH]; intros repoMap; cbn.
  - reflexivity.
  - rewrite IH, dedupStep_candidate.
    destruct (candidate item); reflexivity.
Qed.

Lemma dedupFrom_concat repoMap allCollections :
  dedupFrom repoMap allCollections
  = foldl dedupStep repoMap (concat allCollections).
Proof.
  unfold dedupFrom. revert repoMap.
  induction allCollections as [|c cs IH]; intros repoMap; cbn.
  - reflexivity.
  - rewrite IH, foldl_app. reflexivity.
Qed.

Lemma dedup_candidates allCollections :
  dedup allCollections = foldl insertFirst [] (candidates allCollections).
Proof.
  unfold dedup, candidates. rewrite dedupFrom_concat. apply foldl_dedupStep.
Qed.

Lemma insertFirst_keys_NoDup repoMap cs :
  NoDup (OMap.keys repoMap) → NoDup (OMap.keys (foldl insertFirst repoMap cs)).
Proof.
  revert repoMap. induction cs as [|c cs IH]; intros repoMap Hnd; cbn.
  - exact Hnd.
  - apply IH. unfold insertFirst.
    destruct (OMap.has repoMap c.1) eqn:E; [exact Hnd|].
    unfold OMap.keys. rewrite map_app. cbn.
    apply NoDup_app. split; [exact Hnd|]. split.
    + intros k Hk Hk'. apply list_elem_of_singleton in Hk'. subst k.
      apply has_false_keys in E. contradiction.
    + apply NoDup_singleton.
Qed.

Lemma insertFirst_get repoMap cs k :
  OMap.get (foldl insertFirst repoMap cs) k
  = match OMap.get repoMap k with
    | Some repo => Some repo
    | None => OMap.get cs k
    end.
Proof.
  revert repoMap. induction cs as [|[k' r'] cs IH]; intros repoMap; cbn.
  - destruct (OMap.get repoMap k); reflexivity.
  - rewrite IH. unfold insertFirst. cbn.
    destruct (OMap.has repoMap k') eqn:E.
    + destruct (OMap.get repoMap k) eqn:G; [reflexivity|].
      destruct (String.eqb_spec k' k) as [->|Hne]; [|reflexivity].
      unfold OMap.has in E. rewrite G in E. discriminate.
    + rewrite get_app. cbn.
      destruct (OMap.get repoMap k); [reflexivity|].
      destruct (String.eqb k' k); reflexivity.
Qed.

Lemma insertFirst_keys_elem repoMap cs k :
  k ∈ OMap.keys (foldl insertFirst repoMap cs)
  ↔ k ∈ OMap.keys repoMap ∨ k ∈ OMap.keys cs.
Proof.
  rewrite <- !has_true_keys. unfold OMap.has.
  rewrite insertFirst_get.
  destruct (OMap.get repoMap k), (OMap.get cs k); intuition congruence.
Qed.

Lemma dedup_length allCollections :
  length (dedup allCollections)
  = distinct (OMap.keys (candidates allCollections)).
Proof.
  rewrite dedup_candidates. unfold distinct.
  transitivity (length (OMap.keys (foldl insertFirst [] (candidates allCollections)))).
  { unfold OMap.keys. rewrite length_map. reflexivity. }
  rewrite <- (size_list_to_set (C := gset string)).
  2: { apply insertFirst_keys_NoDup. constructor. }
  f_equal. apply set_eq. intros k.
  rewrite !elem_of_list_to_set, insertFirst_keys_elem.
  cbn. rewrite elem_of_nil. tauto.
Qed.

(** C3, as amended: a record is inserted exactly when its repository is
    present, has at least one language edge, has a non-empty key, and the
    key is not yet in the map; the map holds each key once, bound to the
    first record of the scan that has language edges; its size is the
    number of distinct keys among the records that have language edges. *)
Theorem dedup_first_candidate_wins
    (allCollections : list (list ContributionsByRepository)) :
  (∀ repoMap item,
      dedupStep repoMap item
      = match candidate item with
        | Some (key, repo) =>
            if OMap.has repoMap key then repoMap
            else (repoMap ++ [(key, repo)])%list
        | None => repoMap
        end)
  ∧ NoDup (OMap.keys (dedup allCollections))
  ∧ (∀ key, OMap.get (dedup allCollections) key
            = OMap.get (candidates allCollections) key)
  ∧ length (dedup allCollections)
    = distinct (OMap.keys (candidates allCollections)).
Proof.
  split; [|split; [|split]].
  - intros repoMap item. rewrite dedupStep_candidate.
    destruct (candidate item) as [[key repo]|]; reflexivity.
  - rewrite dedup_candidates. apply insertFirst_keys_NoDup. constructor.
  - intros key. rewrite dedup_candidates, insertFirst_get. reflexivity.
  - apply dedup_length.
Qed.

(** C3, as stated, fails: a key that only occurs on records without language
    edges is counted in the union but is not in the map, and the record kept
    for a key need not be its first occurrence in the scan. *)
Lemma dedup_size_not_union_keys :
  length (dedup overlappingPeriods) = 1%nat
  ∧ distinct (unionKeys overlappingPeriods) = 2%nat
  ∧ length (dedup overlappingPeriods) ≠ distinct (unionKeys overlappingPeriods)
  ∧ firstOccurrence "u/a" overlappingPeriods = Some (sampleRepo "a" (Some []))
  ∧ OMap.get (dedup overlappingPeriods) "u/a"
    = Some (sampleRepo "a" (Some [sampleEdge "X" 10]))
  ∧ OMap.get (dedup overlappingPeriods) "u/a"
    ≠ firstOccurrence "u/a" overlappingPeriods.
Proof.
  assert (distinct (unionKeys overlappingPeriods) = 2%nat) as Hd
    by (vm_compute; reflexivity).
  repeat split; try exact Hd; try reflexivity.
  - rewrite Hd. discriminate.
  - discriminate.
Qed.

(** ** Fetching *)

Lemma fetchPeriod_world net username fromDate w :
  fetchPeriod net username fromDate w
  = ({| requests := (requests w ++ [periodVariables username fromDate])%list;
        logged := (logged w
                     ++ match periodRejection net username fromDate with
                        | Some err => [failureLine fromDate err]
                        | None => []
                        end)%list |},
     periodResult net username fromDate).
Proof.
  unfold periodResult, periodRejection, fetchPeriod.
  destruct (net (periodVariables username fromDate)) as [res|err]; cbn.
  - rewrite app_nil_r.
    destruct (resp_errors res); [reflexivity|].
    destruct (resp_contributionsCollection res); reflexivity.
  - reflexivity.
Qed.

Lemma fetchAll_world net username periods w :
  fetchAll net username periods w
  = ({| requests := (requests w ++ map (periodVariables username) periods)%list;
        logged := (logged w
                     ++ omap (fun p => failureLine p
                                         <$> periodRejection net username p)
                             periods)%list |},
     map (periodResult net username) periods).
Proof.
  revert w. induction periods as [|p periods IH]; intros w; cbn [fetchAll].
  - cbn. rewrite !app_nil_r. destruct w; reflexivity.
  - rewrite fetchPeriod_world, IH. cbn [requests logged map omap list_omap].
    rewrite <- !app_assoc. cbn [app].
    destruct (periodRejection net username p); reflexivity.
Qed.

Lemma periodResult_fails net username fromDate :
  periodFails net username fromDate = true →
  periodResult net username fromDate = [].
Proof.
  unfold periodFails, periodResult, fetchPeriod.
  destruct (net (periodVariables username fromDate)) as [res|err];
    [|reflexivity].
  destruct (resp_errors res); [reflexivity|].
  destruct (resp_contributionsCollection res); [discriminate | reflexivity].
Qed.

Lemma periodResult_local net net' username fromDate :
  net' (periodVariables username fromDate)
  = net (periodVariables username fromDate) →
  periodResult net' username fromDate = periodResult net username fromDate.
Proof. unfold periodResult, fetchPeriod. intros ->. reflexivity. Qed.

(** ** No error after the join *)

Lemma candidate_has_edges item key repo :
  candidate item = Some (key, repo) →
  hasLanguageEdges repo = true ∧ key = repoKey repo ∧ truthy key = true.
Proof.
  unfold candidate. destruct (repository item) as [r|]; [|discriminate].
  destruct (hasLanguageEdges r) eqn:He; [|discriminate].
  destruct (truthy (repoKey r)) eqn:Ht; [|discriminate].
  cbn. intros [= <- <-]. auto.
Qed.

Lemma insertFirst_elem repoMap cs c :
  c ∈ foldl insertFirst repoMap cs → c ∈ repoMap ∨ c ∈ cs.
Proof.
  revert repoMap. induction cs as [|c' cs IH]; intros repoMap; cbn.
  - auto.
  - intros H. apply IH in H as [H|H].
    + unfold insertFirst in H. destruct (OMap.has repoMap c'.1).
      * auto.
      * apply elem_of_app in H as [H|H]; [auto|].
        apply list_elem_of_singleton in H as ->. right. apply list_elem_of_here.
    + right. apply list_elem_of_further, H.
Qed.

Lemma dedup_elem_candidate allCollections key repo :
  (key, repo) ∈ dedup allCollections →
  ∃ item, item ∈ concat allCollections ∧ candidate item = Some (key, repo).
Proof.
  rewrite dedup_candidates. intros H.
  apply insertFirst_elem in H as [H|H].
  - apply elem_of_nil in H as [].
  - unfold candidates in H. apply list_elem_of_omap in H. exact H.
Qed.

Lemma dedup_has_edges allCollections :
  Forall (fun repo => hasLanguageEdges repo = true)
         (OMap.values (dedup allCollections)).
Proof.
  apply Forall_forall. intros repo Hin.
  unfold OMap.values in Hin. apply list_elem_of_fmap in Hin as ([key r] & -> & Hin).
  apply dedup_elem_candidate in Hin as (item & _ & Hc).
  apply candidate_has_edges in Hc. apply Hc.
Qed.

Lemma languageEdges_has_edges node :
  hasLanguageEdges node = true →
  languageEdges node = Returns (edgesOf node) ∧ (0 <? length (edgesOf node))%nat = true.
Proof.
  unfold hasLanguageEdges, languageEdges, edgesOf.
  destruct (repo_languages node) as [[|e es]|]; try discriminate.
  intros _. split; reflexivity.
Qed.

Lemma filterNonEmpty_has_edges repoNodes :
  Forall (fun repo => hasLanguageEdges repo = true) repoNodes →
  filterNonEmpty repoNodes = Returns repoNodes.
Proof.
  induction 1 as [|node rest Hnode _ IH]; cbn [filterNonEmpty]; [reflexivity|].
  destruct (languageEdges_has_edges node Hnode) as [Hedges Hlen].
  rewrite Hedges. cbn [bind]. rewrite IH. cbn [bind]. rewrite Hlen.
  reflexivity.
Qed.

Lemma flattenEdges_has_edges repoNodes start :
  Forall (fun repo => hasLanguageEdges repo = true) repoNodes →
  flattenEdges start repoNodes
  = Returns (foldl (fun acc curr => (edgesOf curr ++ acc)%list) start repoNodes).
Proof.
  intros H. revert start. induction H as [|node rest Hnode _ IH]; intros start; cbn.
  - reflexivity.
  - destruct (languageEdges_has_edges node Hnode) as [-> _]. cbn. apply IH.
Qed.

Lemma visibleRepos_sub exclude_repo excludeRepositories repoMap repo :
  repo ∈ visibleRepos exclude_repo excludeRepositories repoMap →
  repo ∈ OMap.values repoMap.
Proof. unfold visibleRepos. intros H. apply list_elem_of_filter in H. apply H. Qed.

Lemma aggregate_returns exclude_repo excludeRepositories size_weight
    count_weight repoMap :
  Forall (fun repo => hasLanguageEdges repo = true) (OMap.values repoMap) →
  aggregate exclude_repo excludeRepositories size_weight count_weight repoMap
  = Returns
      (rank (applyWeights size_weight count_weight
               (acc (foldEdges
                       (flatEdges (visibleRepos exclude_repo
                                     excludeRepositories repoMap)))))).
Proof.
  intros Hall. unfold aggregate, flatEdges.
  assert (Forall (fun repo => hasLanguageEdges repo = true)
                 (visibleRepos exclude_repo excludeRepositories repoMap)) as Hvis.
  { apply Forall_forall. intros repo Hin.
    apply visibleRepos_sub in Hin.
    rewrite Forall_forall in Hall. apply Hall, Hin. }
  rewrite (filterNonEmpty_has_edges _ Hvis). cbn.
  rewrite (flattenEdges_has_edges _ _ Hvis). reflexivity.
Qed.

Lemma processCollections_returns exclude_repo excludeRepositories size_weight
    count_weight allCollections :
  processCollections exclude_repo excludeRepositories size_weight count_weight
                     allCollections
  = Returns
      (rank (applyWeights size_weight count_weight
               (acc (foldEdges
                       (flatEdges (visibleRepos exclude_repo excludeRepositories
                                     (dedup allCollections))))))).
Proof. apply aggregate_returns, dedup_has_edges. Qed.

Lemma fetchTopLanguages_present net excludeRepositories now username
    exclude_repo size_weight count_weight w :
  truthy username = true →
  fetchTopLanguages net excludeRepositories now (Some username) exclude_repo
                    size_weight count_weight w
  = ((fetchAll net username (buildPeriods now) w).1,
     processCollections exclude_repo excludeRepositories size_weight
       count_weight
       (map (periodResult net username) (buildPeriods now))).
Proof.
  intros Hu. unfold fetchTopLanguages. cbn [truthyOpt].
  rewrite Hu. cbn [negb].
  change (default "" (Some username)) with username.
  rewrite !fetchAll_world. reflexivity.
Qed.

(** ** Exclusion *)

Lemma foldl_hideRepo_lookup allExcludedRepos repoToHide repoName :
  foldl hideRepo repoToHide allExcludedRepos !! repoName
  = if bool_decide (repoName ∈ allExcludedRepos ∧ repoName ≠ "__proto__")
    then Some true
    else repoToHide !! repoName.
Proof.
  revert repoToHide.
  induction allExcludedRepos as [|a l IH]; intros repoToHide; cbn [foldl].
  - rewrite bool_decide_eq_false_2; [reflexivity|].
    intros [H _]. apply elem_of_nil in H as [].
  - rewrite IH. unfold hideRepo.
    destruct (decide (repoName ∈ l ∧ repoName ≠ "__proto__")) as [[Hin Hne]|Hn].
    + rewrite !bool_decide_eq_true_2; [reflexivity | | split; assumption].
      split; [apply list_elem_of_further, Hin | exact Hne].
    + rewrite (bool_decide_eq_false_2 _ Hn).
      destruct (String.eqb_spec a "__proto__") as [->|Ha].
      * rewrite bool_decide_eq_false_2; [reflexivity|].
        intros [Hin Hne]. apply elem_of_cons in Hin as [?|Hin]; [done|].
        apply Hn. split; assumption.
      * destruct (decide (a = repoName)) as [->|Hne].
        -- rewrite lookup_insert_eq, bool_decide_eq_true_2; [reflexivity|].
           split; [apply list_elem_of_here | exact Ha].
        -- rewrite lookup_insert_ne by exact Hne.
           rewrite bool_decide_eq_false_2; [reflexivity|].
           intros [Hin Hp]. apply elem_of_cons in Hin as [?|Hin]; [done|].
           apply Hn. split; assumption.
Qed.

Lemma isHidden_build allExcludedRepos repoName :
  isHidden (buildRepoToHide allExcludedRepos) repoName = true
  ↔ repoName ∈ allExcludedRepos ∨ repoName ∈ objectPrototypeKeys.
Proof.
  unfold isHidden, buildRepoToHide. rewrite foldl_hideRepo_lookup.
  rewrite lookup_empty.
  destruct (decide (repoName ∈ allExcludedRepos ∧ repoName ≠ "__proto__"))
    as [[Hin Hne]|Hn].
  - rewrite bool_decide_eq_true_2 by (split; assumption). tauto.
  - rewrite (bool_decide_eq_false_2 _ Hn). rewrite bool_decide_eq_true.
    split; [auto|]. intros [Hin|Hp]; [|exact Hp].
    destruct (decide (repoName = "__proto__")) as [->|Hne].
    + apply list_elem_of_further, list_elem_of_here.
    + exfalso. apply Hn. split; assumption.
Qed.

Lemma visibleRepos_elem exclude_repo excludeRepositories repoMap repo :
  repo ∈ visibleRepos exclude_repo excludeRepositories repoMap
  ↔ (repo ∈ OMap.values repoMap
     ∧ (repo_name repo ∉ exclude_repo)
     ∧ (repo_name repo ∉ excludeRepositories)
     ∧ (repo_name repo ∉ objectPrototypeKeys)).
Proof.
  unfold visibleRepos. rewrite list_elem_of_filter, negb_true_iff.
  rewrite <- not_true_iff_false, isHidden_build, elem_of_app. tauto.
Qed.

Lemma filter_ext_elem {A} (P Q : A → Prop) `{!∀ x, Decision (P x)}
    `{!∀ x, Decision (Q x)} (l : list A) :
  (∀ x, x ∈ l → P x ↔ Q x) → filter P l = filter Q l.
Proof.
  induction l as [|a l IH]; intros Hext; [reflexivity|].
  rewrite !filter_cons.
  rewrite IH by (intros x Hx; apply Hext, list_elem_of_further, Hx).
  apply decide_ext, Hext, list_elem_of_here.
Qed.

Lemma visibleRepos_filter exclude_repo excludeRepositories repoMap :
  visibleRepos exclude_repo excludeRepositories repoMap
  = filter (fun repo => repo_name repo ∉ objectPrototypeKeys)
      (filter (fun repo => repo_name repo
                             ∉ (exclude_repo ++ excludeRepositories)%list)
              (OMap.values repoMap)).
Proof.
  unfold visibleRepos. rewrite list_filter_filter.
  apply list_filter_iff. intros repo.
  rewrite negb_true_iff, <- not_true_iff_false, isHidden_build. tauto.
Qed.

Lemma string_length_app (s1 s2 : string) :
  String.length (s1 ++ s2) = (String.length s1 + String.length s2)%nat.
Proof.
  induction s1 as [|c s1 IH]; [reflexivity|].
  change (S (String.length (s1 ++ s2)) = S (String.length s1 + String.length s2)).
  f_equal. exact IH.
Qed.

Lemma qualified_name_differs (owner name : string) : owner ++ "/" ++ name ≠ name.
Proof.
  intros H. apply (f_equal String.length) in H.
  rewrite !string_length_app in H. cbn in H. lia.
Qed.

Lemma dedup_keyed allCollections key repo :
  (key, repo) ∈ dedup allCollections → key = repoKey repo.
Proof.
  intros H. apply dedup_elem_candidate in H as (item & _ & Hc).
  apply candidate_has_edges in Hc. apply Hc.
Qed.

(** C10: the map of repositories is keyed by [nameWithOwner], or by [name]
    when that is absent or empty, whereas exclusion looks at [name] alone.
    Listing the owner-qualified name of a record does not change whether
    that record is kept, and removes nothing at all when the string is no
    record's short name; listing a short name removes every record with
    that short name, whatever its owner-qualified name. *)
Theorem exclusion_matches_short_name_only
    (exclude_repo excludeRepositories : list string)
    (repoMap : list (string * Repository)) :
  (∀ allCollections key repo,
      (key, repo) ∈ dedup allCollections →
      key = match repo_nameWithOwner repo with
            | Some qualified =>
                if String.eqb qualified "" then repo_name repo else qualified
            | None => repo_name repo
            end)
  ∧ (∀ repo owner,
        repo_nameWithOwner repo = Some (owner ++ "/" ++ repo_name repo) →
        (repo ∈ visibleRepos ((owner ++ "/" ++ repo_name repo) :: exclude_repo)
                  excludeRepositories repoMap
         ↔ repo ∈ visibleRepos exclude_repo excludeRepositories repoMap)
        ∧ (repo ∈ visibleRepos exclude_repo
                    ((owner ++ "/" ++ repo_name repo) :: excludeRepositories)
                    repoMap
           ↔ repo ∈ visibleRepos exclude_repo excludeRepositories repoMap))
  ∧ (∀ qualified,
        (∀ repo, repo ∈ OMap.values repoMap → repo_name repo ≠ qualified) →
        visibleRepos (qualified :: exclude_repo) excludeRepositories repoMap
        = visibleRepos exclude_repo excludeRepositories repoMap
        ∧ visibleRepos exclude_repo (qualified :: excludeRepositories) repoMap
          = visibleRepos exclude_repo excludeRepositories repoMap)
  ∧ (∀ short repo,
        short ∈ exclude_repo ∨ short ∈ excludeRepositories →
        repo_name repo = short →
        repo ∉ visibleRepos exclude_repo excludeRepositories repoMap).
Proof.
  split; [|split; [|split]].
  - intros allCollections key repo H. apply dedup_keyed in H. subst key.
    unfold repoKey, truthy. destruct (repo_nameWithOwner repo) as [q|]; [|reflexivity].
    destruct (String.eqb q ""); reflexivity.
  - intros repo owner _.
    pose proof (qualified_name_differs owner (repo_name repo)) as Hne.
    rewrite !visibleRepos_elem, !not_elem_of_cons. split; split; tauto || (intros; repeat split; try tauto; congruence).
  - intros qualified Hq. unfold visibleRepos. split.
    + apply filter_ext_elem. intros repo Hin. specialize (Hq repo Hin).
      rewrite !negb_true_iff, <- !not_true_iff_false, !isHidden_build.
      cbn [app]. rewrite elem_of_cons. split; [tauto|].
      intros H [[?|?]|?]; [congruence | tauto | tauto].
    + apply filter_ext_elem. intros repo Hin. specialize (Hq repo Hin).
      rewrite !negb_true_iff, <- !not_true_iff_false, !isHidden_build.
      rewrite !elem_of_app, elem_of_cons. split; [tauto|].
      intros H [[?|[?|?]]|?]; [tauto | congruence | tauto | tauto].
  - intros short repo Hshort Hname. rewrite visibleRepos_elem. subst short. tauto.
Qed.

(** ** The fold over language edges *)

Lemma foldEdges_snoc edges prev :
  foldEdges (edges ++ [prev])%list = foldStep (foldEdges edges) prev.
Proof. unfold foldEdges. rewrite foldl_app. reflexivity. Qed.

Lemma foldStep_acc st prev :
  ∃ entry,
    acc (foldStep st prev) = OMap.set (acc st) (edgeName prev) entry
    ∧ lang_name entry = edgeName prev
    ∧ lang_count entry = repoCount (foldStep st prev)
    ∧ lang_size entry
      = match OMap.get (acc st) (edgeName prev) with
        | Some old =>
            if String.eqb (edgeName prev) (lang_name old)
            then edge_size prev + lang_size old else edge_size prev
        | None => edge_size prev
        end.
Proof.
  unfold foldStep, edgeName.
  destruct (OMap.get (acc st) (node_name (edge_node prev))) as [old|].
  - destruct (String.eqb _ (lang_name old)); eexists; cbn; repeat split.
  - eexists; cbn; repeat split.
Qed.

Lemma elem_of_set {V} (m : list (string * V)) k v k' v' :
  (k', v') ∈ OMap.set m k v → (k', v') = (k, v) ∨ (k', v') ∈ m.
Proof.
  induction m as [|[k0 v0] m IH]; cbn.
  - intros H. apply list_elem_of_singleton in H. auto.
  - destruct (String.eqb_spec k0 k) as [->|Hne].
    + intros H. apply elem_of_cons in H as [H|H]; [auto|].
      right. apply list_elem_of_further, H.
    + intros H. apply elem_of_cons in H as [H|H].
      * right. rewrite H. apply list_elem_of_here.
      * apply IH in H as [H|H]; [auto|]. right. apply list_elem_of_further, H.
Qed.

Lemma keys_set_NoDup {V} (m : list (string * V)) k v :
  NoDup (OMap.keys m) → NoDup (OMap.keys (OMap.set m k v)).
Proof.
  intros Hnd. destruct (OMap.has m k) eqn:E.
  - rewrite keys_set_present by exact E. exact Hnd.
  - rewrite set_fresh by exact E. unfold OMap.keys. rewrite map_app.
    apply NoDup_app. split; [exact Hnd|]. split; [|apply NoDup_singleton].
    intros x Hx Hx'. apply list_elem_of_singleton in Hx'. subst x.
    apply has_false_keys in E. contradiction.
Qed.

Lemma foldEdges_keyed edges : keyed (acc (foldEdges edges)).
Proof.
  induction edges as [|prev edges IH] using rev_ind.
  - intros key entry H. apply elem_of_nil in H as [].
  - rewrite foldEdges_snoc.
    destruct (foldStep_acc (foldEdges edges) prev) as (new & -> & Hname & _).
    intros key entry H. apply elem_of_set in H as [[= -> ->]|H].
    + exact Hname.
    + apply IH, H.
Qed.

Lemma foldEdges_keys_NoDup edges : NoDup (OMap.keys (acc (foldEdges edges))).
Proof.
  induction edges as [|prev edges IH] using rev_ind.
  - constructor.
  - rewrite foldEdges_snoc.
    destruct (foldStep_acc (foldEdges edges) prev) as (new & -> & _).
    apply keys_set_NoDup, IH.
Qed.

Lemma foldEdges_own_name edges name old :
  OMap.get (acc (foldEdges edges)) name = Some old →
  String.eqb name (lang_name old) = true.
Proof.
  intros H. apply get_Some_elem, foldEdges_keyed in H.
  rewrite H. apply String.eqb_refl.
Qed.

Lemma foldStep_repoCount edges prev :
  repoCount (foldStep (foldEdges edges) prev)
  = if OMap.has (acc (foldEdges edges)) (edgeName prev)
    then repoCount (foldEdges edges) + 1 else 1.
Proof.
  unfold foldStep, OMap.has, edgeName.
  destruct (OMap.get (acc (foldEdges edges)) (node_name (edge_node prev)))
    as [old|] eqn:G; [|reflexivity].
  rewrite (foldEdges_own_name _ _ _ G). reflexivity.
Qed.


(** ** Sorting the keys *)

Section StableSort.
Variable f : string → Z.
Variable cmp : string → string → Z.
Hypothesis cmp_spec : ∀ a b, cmp a b = f b - f a.

Lemma insertKey_Permutation x sorted : insertKey cmp x sorted ≡ₚ x :: sorted.
Proof.
  induction sorted as [|y rest IH]; cbn [insertKey]; [reflexivity|].
  destruct (cmp y x <? 0); [|reflexivity].
  rewrite IH. apply Permutation_swap.
Qed.

Lemma insertKey_sorted x sorted :
  StronglySorted (fun a b => f a >= f b) sorted →
  StronglySorted (fun a b => f a >= f b) (insertKey cmp x sorted).
Proof.
  induction 1 as [|y rest Hrest IH Hy]; cbn [insertKey].
  - repeat constructor.
  - destruct (Z.ltb_spec (cmp y x) 0) as [Hlt|Hge];
      [rewrite cmp_spec in Hlt | rewrite cmp_spec in Hge].
    + constructor; [exact IH|].
      rewrite insertKey_Permutation. constructor; [lia | exact Hy].
    + constructor; [constructor; assumption|].
      constructor; [lia|].
      eapply Forall_impl; [exact Hy|]. cbn. intros z Hz. lia.
Qed.

Lemma insertKey_filter s x sorted :
  filter (fun k => f k = s) (insertKey cmp x sorted)
  = filter (fun k => f k = s) (x :: sorted).
Proof.
  induction sorted as [|y rest IH]; cbn [insertKey]; [reflexivity|].
  destruct (Z.ltb_spec (cmp y x) 0) as [Hlt|Hge]; [|reflexivity].
  rewrite cmp_spec in Hlt.
  rewrite (filter_cons _ y), IH, !(filter_cons _ x), (filter_cons _ y).
  destruct (decide (f y = s)) as [Hy|Hy]; [|reflexivity].
  destruct (decide (f x = s)) as [Hx|Hx]; [lia | reflexivity].
Qed.

Lemma sortKeys_Permutation keys : sortKeys cmp keys ≡ₚ keys.
Proof.
  induction keys as [|k keys IH]; cbn [sortKeys foldr]; [reflexivity|].
  rewrite insertKey_Permutation. apply Permutation_skip, IH.
Qed.

Lemma sortKeys_sorted keys :
  StronglySorted (fun a b => f a >= f b) (sortKeys cmp keys).
Proof.
  induction keys as [|k keys IH]; cbn [sortKeys foldr]; [constructor|].
  apply insertKey_sorted, IH.
Qed.

Lemma sortKeys_filter s keys :
  filter (fun k => f k = s) (sortKeys cmp keys)
  = filter (fun k => f k = s) keys.
Proof.
  induction keys as [|k keys IH]; cbn [sortKeys foldr]; [reflexivity|].
  change (foldr (insertKey cmp) [] keys) with (sortKeys cmp keys).
  rewrite insertKey_filter, !(filter_cons _ k), IH. reflexivity.
Qed.

End StableSort.

(** ** Ranking *)

Lemma collect_from table result keys :
  NoDup keys →
  (∀ k, k ∈ keys → k ∉ OMap.keys result) →
  (∀ k, k ∈ keys → k ∈ OMap.keys table) →
  foldl (fun result key =>
           match OMap.get table key with
           | Some entry => OMap.set result key entry
           | None => result
           end) result keys
  = (result ++ map (fun k => (k, entryOf table k)) keys)%list.
Proof.
  revert result. induction keys as [|k keys IH]; intros result Hnd Hfresh Hin; cbn.
  - rewrite app_nil_r. reflexivity.
  - apply NoDup_cons in Hnd as [Hk Hnd].
    destruct (OMap.get table k) as [entry|] eqn:G.
    2: { apply get_None_keys in G. exfalso. apply G, Hin, list_elem_of_here. }
    rewrite set_fresh.
    2: { apply has_false_keys, Hfresh, list_elem_of_here. }
    rewrite IH.
    + rewrite <- app_assoc. cbn. unfold entryOf. rewrite G. reflexivity.
    + exact Hnd.
    + intros k' Hk'. unfold OMap.keys. rewrite map_app, elem_of_app. cbn.
      intros [H|H].
      * revert H. apply Hfresh, list_elem_of_further, Hk'.
      * apply list_elem_of_singleton in H. subst k'. contradiction.
    + intros k' Hk'. apply Hin, list_elem_of_further, Hk'.
Qed.

Lemma rank_map table :
  NoDup (OMap.keys table) →
  rank table
  = map (fun k => (k, entryOf table k))
        (sortKeys (compareKeys table) (OMap.keys table)).
Proof.
  intros Hnd. unfold rank, collect.
  pose proof (sortKeys_Permutation (compareKeys table) (OMap.keys table))
    as Hperm.
  rewrite collect_from.
  - reflexivity.
  - rewrite Hperm. exact Hnd.
  - intros k _. apply not_elem_of_nil.
  - intros k Hk. rewrite Hperm in Hk. exact Hk.
Qed.

Lemma entryOf_keys table :
  NoDup (OMap.keys table) →
  map (fun k => (k, entryOf table k)) (OMap.keys table) = table.
Proof.
  intros Hnd. unfold OMap.keys. rewrite map_map.
  rewrite <- (map_id table) at 2.
  apply map_ext_in. intros [k e] Hin. cbn.
  apply list_elem_of_In in Hin.
  unfold entryOf. rewrite (get_NoDup_elem _ _ _ Hnd Hin). reflexivity.
Qed.

Lemma sizeOf_entryOf table k : lang_size (entryOf table k) = sizeOf table k.
Proof. unfold entryOf, sizeOf. destruct (OMap.get table k); reflexivity. Qed.

Lemma filter_map_entries (P : string → Prop) `{!∀ k, Decision (P k)}
    (Q : string * Lang → Prop) `{!∀ kv, Decision (Q kv)}
    (h : string → string * Lang) keys :
  (∀ k, Q (h k) ↔ P k) →
  filter Q (map h keys) = map h (filter P keys).
Proof.
  intros HPQ. induction keys as [|k keys IH]; [reflexivity|].
  cbn [map]. rewrite !filter_cons, IH.
  destruct (decide (Q (h k))) as [HQ|HQ], (decide (P k)) as [HP|HP];
    try reflexivity; exfalso; apply HPQ in HQ || apply HPQ in HP; contradiction.
Qed.

Lemma rank_Permutation table : NoDup (OMap.keys table) → rank table ≡ₚ table.
Proof.
  intros Hnd. rewrite rank_map by exact Hnd.
  transitivity (map (fun k => (k, entryOf table k)) (OMap.keys table)).
  - apply Permutation_map, sortKeys_Permutation.
  - rewrite entryOf_keys by exact Hnd. reflexivity.
Qed.

Lemma rank_descending table : NoDup (OMap.keys table) → descending (rank table).
Proof.
  intros Hnd. rewrite rank_map by exact Hnd. unfold descending.
  pose proof (sortKeys_sorted (sizeOf table) (compareKeys table)
                (fun _ _ => eq_refl) (OMap.keys table)) as Hs.
  induction Hs as [|k ks Hks IH Hk]; cbn; constructor.
  - exact IH.
  - apply Forall_forall. intros kv Hkv.
    apply list_elem_of_fmap in Hkv as (k' & -> & Hk').
    rewrite Forall_forall in Hk. specialize (Hk k' Hk').
    cbn. rewrite !sizeOf_entryOf. exact Hk.
Qed.

Lemma rank_stable table s :
  NoDup (OMap.keys table) → withSize s (rank table) = withSize s table.
Proof.
  intros Hnd. unfold withSize. rewrite rank_map by exact Hnd.
  transitivity (filter (fun kv : string * Lang => lang_size kv.2 = s)
                  (map (fun k => (k, entryOf table k)) (OMap.keys table))).
  - rewrite !(filter_map_entries (fun k => sizeOf table k = s))
      by (intros k; cbn; rewrite sizeOf_entryOf; reflexivity).
    f_equal.
    apply (sortKeys_filter (sizeOf table) (compareKeys table)
             (fun _ _ => eq_refl)).
  - rewrite entryOf_keys by exact Hnd. reflexivity.
Qed.

Lemma rank_keys table :
  NoDup (OMap.keys table) →
  OMap.keys (rank table) = sortKeys (compareKeys table) (OMap.keys table).
Proof.
  intros Hnd. rewrite rank_map by exact Hnd.
  unfold OMap.keys at 1. rewrite map_map. cbn. apply map_id.
Qed.

(** ** Sizes *)

Lemma rawSize_app name edges1 edges2 :
  rawSize name (edges1 ++ edges2)%list = rawSize name edges1 + rawSize name edges2.
Proof.
  induction edges1 as [|e edges1 IH]; cbn; [reflexivity|].
  fold (rawSize name (edges1 ++ edges2)%list). fold (rawSize name edges1).
  rewrite IH. destruct (String.eqb (edgeName e) name); lia.
Qed.

Lemma rawSize_absent name edges :
  name ∉ map edgeName edges → rawSize name edges = 0.
Proof.
  induction edges as [|e edges IH]; cbn; [reflexivity|].
  fold (rawSize name edges). rewrite not_elem_of_cons. intros [Hne Hnin].
  destruct (String.eqb_spec (edgeName e) name); [congruence|]. apply IH, Hnin.
Qed.

Lemma foldEdges_get edges name :
  match OMap.get (acc (foldEdges edges)) name with
  | Some entry =>
      lang_size entry = rawSize name edges ∧ name ∈ map edgeName edges
  | None => name ∉ map edgeName edges
  end.
Proof.
  induction edges as [|prev edges IH] using rev_ind.
  - cbn. apply not_elem_of_nil.
  - rewrite foldEdges_snoc.
    destruct (foldStep_acc (foldEdges edges) prev) as (new & -> & _ & _ & Hsize).
    rewrite get_set, map_app, rawSize_app. cbn [map rawSize foldr].
    destruct (String.eqb_spec (edgeName prev) name) as [Heq|Hne].
    + subst name. split.
      2: { apply elem_of_app. right. apply list_elem_of_here. }
      rewrite Hsize.
      destruct (OMap.get (acc (foldEdges edges)) (edgeName prev)) as [old|] eqn:G.
      * rewrite (foldEdges_own_name _ _ _ G). destruct IH as [-> _]. lia.
      * rewrite (rawSize_absent _ _ IH). lia.
    + destruct (OMap.get (acc (foldEdges edges)) name) as [old|].
      * destruct IH as [-> Hin]. split; [lia|].
        apply elem_of_app. left. exact Hin.
      * rewrite elem_of_app. intros [H|H]; [contradiction|].
        apply list_elem_of_singleton in H. congruence.
Qed.

Lemma flatEdges_from name start repos :
  rawSize name (foldl (fun acc curr => (edgesOf curr ++ acc)%list) start repos)
  = rawSize name start + rawSizeOver name repos.
Proof.
  revert start.
  induction repos as [|repo repos IH]; intros start; cbn [foldl].
  - unfold rawSizeOver. cbn [foldr]. lia.
  - rewrite IH, rawSize_app. unfold rawSizeOver. cbn [foldr]. lia.
Qed.

Lemma rawSize_flatEdges name repos :
  rawSize name (flatEdges repos) = rawSizeOver name repos.
Proof. unfold flatEdges. rewrite flatEdges_from. reflexivity. Qed.

Lemma applyWeights_keys size_weight count_weight table :
  OMap.keys (applyWeights size_weight count_weight table) = OMap.keys table.
Proof.
  unfold applyWeights, OMap.keys. rewrite map_map.
  apply map_ext. intros [k e]. reflexivity.
Qed.

Lemma applyWeights_get size_weight count_weight table name :
  OMap.get (applyWeights size_weight count_weight table) name
  = (fun entry => {| lang_name := lang_name entry;
                     lang_color := lang_color entry;
                     lang_size := score size_weight count_weight entry;
                     lang_count := lang_count entry |})
      <$> OMap.get table name.
Proof.
  induction table as [|[k e] table IH]; cbn; [reflexivity|].
  destruct (String.eqb k name); [reflexivity | exact IH].
Qed.

Lemma score_size_only entry : score 1 0 entry = lang_size entry.
Proof. unfold score. cbn [Z.of_nat]. rewrite Z.pow_1_r, Z.pow_0_r. lia. Qed.

Lemma rank_get table name :
  NoDup (OMap.keys table) → OMap.get (rank table) name = OMap.get table name.
Proof.
  intros Hnd.
  pose proof (rank_Permutation table Hnd) as Hperm.
  assert (NoDup (OMap.keys (rank table))) as Hnd'.
  { unfold OMap.keys. rewrite Hperm. exact Hnd. }
  destruct (OMap.get table name) as [e|] eqn:G.
  - apply get_NoDup_elem; [exact Hnd'|].
    rewrite Hperm. apply get_Some_elem, G.
  - apply get_None_keys. unfold OMap.keys. rewrite Hperm.
    apply get_None_keys, G.
Qed.

(** ** Which edges reach the output *)

Lemma flatEdges_elem_from edge start repos :
  edge ∈ foldl (fun acc curr => (edgesOf curr ++ acc)%list) start repos →
  edge ∈ start ∨ ∃ repo, repo ∈ repos ∧ edge ∈ edgesOf repo.
Proof.
  revert start. induction repos as [|repo repos IH]; intros start; cbn [foldl].
  - auto.
  - intros H. apply IH in H as [H|(r & Hr & He)].
    + apply elem_of_app in H as [H|H]; [|auto].
      right. exists repo. split; [apply list_elem_of_here | exact H].
    + right. exists r. split; [apply list_elem_of_further, Hr | exact He].
Qed.

Lemma flatEdges_elem edge repos :
  edge ∈ flatEdges repos → ∃ repo, repo ∈ repos ∧ edge ∈ edgesOf repo.
Proof.
  intros H. apply flatEdges_elem_from in H as [H|H]; [|exact H].
  apply elem_of_nil in H as [].
Qed.

Lemma foldEdges_key_edge edges name :
  name ∈ OMap.keys (acc (foldEdges edges)) →
  ∃ edge, edge ∈ edges ∧ edgeName edge = name.
Proof.
  intros H. apply has_true_keys in H. unfold OMap.has in H.
  pose proof (foldEdges_get edges name) as Hget.
  destruct (OMap.get (acc (foldEdges edges)) name); [|discriminate].
  destruct Hget as [_ Hin]. apply list_elem_of_fmap in Hin as (edge & -> & Hin).
  eauto.
Qed.

Lemma scored_keys_NoDup size_weight count_weight edges :
  NoDup (OMap.keys (applyWeights size_weight count_weight
                      (acc (foldEdges edges)))).
Proof. rewrite applyWeights_keys. apply foldEdges_keys_NoDup. Qed.

Lemma output_key_edge size_weight count_weight edges name :
  name ∈ OMap.keys (rank (applyWeights size_weight count_weight
                            (acc (foldEdges edges)))) →
  ∃ edge, edge ∈ edges ∧ edgeName edge = name.
Proof.
  rewrite rank_keys by apply scored_keys_NoDup.
  rewrite sortKeys_Permutation, applyWeights_keys.
  apply foldEdges_key_edge.
Qed.

Lemma aggregate_nonExcluded exclude_repo excludeRepositories size_weight
    count_weight repoMap repoMap' :
  nonExcluded exclude_repo excludeRepositories repoMap
  = nonExcluded exclude_repo excludeRepositories repoMap' →
  aggregate exclude_repo excludeRepositories size_weight count_weight repoMap
  = aggregate exclude_repo excludeRepositories size_weight count_weight repoMap'.
Proof.
  intros H. unfold aggregate. rewrite !visibleRepos_filter.
  unfold nonExcluded in H. rewrite H. reflexivity.
Qed.

(** C4: whatever the weights, the repositories whose edges are folded have
    a name in neither exclusion list; the mapping returned is computed from
    those repositories alone, every language in it comes from an edge of
    such a repository, and two maps of repositories that differ only in
    repositories with an excluded name give the same mapping. *)
Theorem excluded_repositories_never_contribute
    (exclude_repo excludeRepositories : list string)
    (size_weight count_weight : nat)
    (allCollections : list (list ContributionsByRepository)) :
  let kept :=
    visibleRepos exclude_repo excludeRepositories (dedup allCollections) in
  (∀ repo, repo ∈ kept →
           (repo_name repo ∉ exclude_repo)
           ∧ (repo_name repo ∉ excludeRepositories))
  ∧ (∃ topLangs,
        processCollections exclude_repo excludeRepositories size_weight
                           count_weight allCollections
        = Returns topLangs
        ∧ topLangs = rank (applyWeights size_weight count_weight
                             (acc (foldEdges (flatEdges kept))))
        ∧ ∀ name, name ∈ OMap.keys topLangs →
                  ∃ repo edge,
                    repo ∈ OMap.values (dedup allCollections)
                    ∧ (repo_name repo ∉ exclude_repo)
                    ∧ (repo_name repo ∉ excludeRepositories)
                    ∧ edge ∈ edgesOf repo
                    ∧ edgeName edge = name)
  ∧ (∀ repoMap repoMap',
        nonExcluded exclude_repo excludeRepositories repoMap
        = nonExcluded exclude_repo excludeRepositories repoMap' →
        aggregate exclude_repo excludeRepositories size_weight count_weight
                  repoMap
        = aggregate exclude_repo excludeRepositories size_weight count_weight
                    repoMap').
Proof.
  cbn zeta. split; [|split].
  - intros repo H. apply visibleRepos_elem in H. tauto.
  - eexists. split; [apply processCollections_returns|].
    split; [reflexivity|].
    intros name H. apply output_key_edge in H as (edge & Hedge & Hname).
    apply flatEdges_elem in Hedge as (repo & Hrepo & Hedge).
    apply visibleRepos_elem in Hrepo as (Hin & He & Hg & _).
    exists repo, edge. auto.
  - intros repoMap repoMap'. apply aggregate_nonExcluded.
Qed.

Lemma excluded_repositories_never_contribute_witness :
  nonExcluded ["A"] [] mapWithA = nonExcluded ["A"] [] mapWithOtherA
  ∧ aggregate ["A"] [] 2 1 mapWithA = aggregate ["A"] [] 2 1 mapWithOtherA.
Proof.
  assert (nonExcluded ["A"] [] mapWithA = nonExcluded ["A"] [] mapWithOtherA)
    as Hsame by (vm_compute; reflexivity).
  split; [exact Hsame|].
  apply (excluded_repositories_never_contribute ["A"] [] 2 1 []).
  exact Hsame.
Defined.

Example excluded_run :
  aggregate ["A"] [] 1 0 mapWithA
  = Returns [ ("X", {| lang_name := "X"; lang_color := None;
                       lang_size := 50; lang_count := 1 |});
              ("Y", {| lang_name := "Y"; lang_color := None;
                       lang_size := 30; lang_count := 1 |}) ].
Proof. vm_compute. reflexivity. Qed.

Lemma exclusion_matches_short_name_only_witness :
  (∀ repo, repo ∈ OMap.values mapWithA → repo_name repo ≠ "u/A")
  ∧ visibleRepos ["u/A"] [] mapWithA = visibleRepos [] [] mapWithA
  ∧ sampleRepo "A" (Some [sampleEdge "X" 100]) ∉ visibleRepos ["A"] [] mapWithA.
Proof.
  assert (∀ repo, repo ∈ OMap.values mapWithA → repo_name repo ≠ "u/A") as Hq.
  { intros repo Hin. cbn in Hin.
    apply elem_of_cons in Hin as [->|Hin]; [discriminate|].
    apply list_elem_of_singleton in Hin as ->. discriminate. }
  split; [exact Hq|]. split.
  - apply (exclusion_matches_short_name_only [] [] mapWithA). exact Hq.
  - apply (exclusion_matches_short_name_only ["A"] [] mapWithA) with "A".
    + left. apply list_elem_of_here.
    + reflexivity.
Defined.

(** ** Default weights *)

Lemma visibleRepos_nonExcluded exclude_repo excludeRepositories repoMap :
  (∀ repo, repo ∈ nonExcluded exclude_repo excludeRepositories repoMap →
           repo_name repo ∉ objectPrototypeKeys) →
  visibleRepos exclude_repo excludeRepositories repoMap
  = nonExcluded exclude_repo excludeRepositories repoMap.
Proof.
  intros H. rewrite visibleRepos_filter. fold (nonExcluded exclude_repo excludeRepositories repoMap).
  induction (nonExcluded exclude_repo excludeRepositories repoMap) as [|r l IH];
    [reflexivity|].
  rewrite filter_cons_True by apply H, list_elem_of_here.
  f_equal. apply IH. intros repo Hin. apply H, list_elem_of_further, Hin.
Qed.

Lemma default_weights_sizes exclude_repo excludeRepositories allCollections :
  let kept :=
    visibleRepos exclude_repo excludeRepositories (dedup allCollections) in
  ∃ topLangs,
    processCollections exclude_repo excludeRepositories 1 0 allCollections
    = Returns topLangs
    ∧ descending topLangs
    ∧ ∀ name entry,
        OMap.get topLangs name = Some entry →
        lang_size entry = rawSizeOver name kept.
Proof.
  cbn zeta. eexists. split; [apply processCollections_returns|].
  split; [apply rank_descending, scored_keys_NoDup|].
  intros name entry. rewrite rank_get by apply scored_keys_NoDup.
  rewrite applyWeights_get.
  pose proof (foldEdges_get
                (flatEdges (visibleRepos exclude_repo excludeRepositories
                              (dedup allCollections))) name) as Hget.
  destruct (OMap.get _ name) as [old|]; [|discriminate].
  cbn. intros [= <-]. cbn. rewrite score_size_only.
  destruct Hget as [-> _]. apply rawSize_flatEdges.
Qed.

(** With the default weights, and when no repository left after exclusion
    bears the name of a member of [Object.prototype], every [size] of the
    mapping is the plain sum of the byte sizes of that language's edges over
    the deduplicated, non-excluded repositories, and the mapping is in
    descending order of these sums. *)
Lemma default_weights_raw_sums exclude_repo excludeRepositories allCollections :
  (∀ repo,
      repo ∈ nonExcluded exclude_repo excludeRepositories (dedup allCollections) →
      repo_name repo ∉ objectPrototypeKeys) →
  ∃ topLangs,
    processCollections exclude_repo excludeRepositories 1 0 allCollections
    = Returns topLangs
    ∧ descending topLangs
    ∧ ∀ name entry,
        OMap.get topLangs name = Some entry →
        lang_size entry
        = rawSizeOver name (nonExcluded exclude_repo excludeRepositories
                              (dedup allCollections)).
Proof.
  intros H. rewrite <- (visibleRepos_nonExcluded _ _ _ H).
  apply default_weights_sizes.
Qed.

(** C5 fails on the code for a repository named like a member of
    [Object.prototype]: [repoToHide] is a plain object, so the filter of
    line 181 reads the inherited member and drops the repository although
    no exclusion list names it.  The size returned for [X] is 50; the sum
    over the deduplicated, non-excluded repositories is 150. *)
Theorem default_weights_miss_shadowed_repository :
  (fetchTopLanguages shadowedNet [] 1700000000000 (Some "u") [] 1 0
                     emptyWorld).2
  = Returns [ ("X", {| lang_name := "X"; lang_color := None;
                       lang_size := 50; lang_count := 1 |}) ]
  ∧ nonExcluded [] [] (dedup shadowedPeriods)
    = [ sampleRepo "constructor" (Some [sampleEdge "X" 100]);
        sampleRepo "B" (Some [sampleEdge "X" 50]) ]
  ∧ rawSizeOver "X" (nonExcluded [] [] (dedup shadowedPeriods)) = 150.
Proof. vm_compute. repeat split; reflexivity. Qed.

(** ** Determinism *)

(** C9: the mapping returned (or the error thrown) is determined by the
    parameters and the per-period contributions: two calls whose periods
    contribute the same lists, with the same parameters, return the same
    mapping with the same order of entries, whatever the clock and the rest
    of the network's behaviour. *)
Theorem fetchTopLanguages_deterministic
    (net1 net2 : Network) (now1 now2 : Z) (excludeRepositories : list string)
    (username : option string) (exclude_repo : list string)
    (size_weight count_weight : nat) (w1 w2 : World) :
  map (periodResult net1 (default "" username)) (buildPeriods now1)
  = map (periodResult net2 (default "" username)) (buildPeriods now2) →
  (fetchTopLanguages net1 excludeRepositories now1 username exclude_repo
                     size_weight count_weight w1).2
  = (fetchTopLanguages net2 excludeRepositories now2 username exclude_repo
                       size_weight count_weight w2).2.
Proof.
  intros Hsame. destruct (truthyOpt username) eqn:Hu.
  - destruct username as [username|]; [|discriminate]. cbn in Hu, Hsame.
    rewrite !fetchTopLanguages_present by exact Hu. cbn [snd].
    change (id username) with username in Hsame.
    rewrite Hsame. reflexivity.
  - unfold fetchTopLanguages. rewrite Hu. reflexivity.
Qed.

Lemma fetchTopLanguages_deterministic_witness :
  map (periodResult flakyNet "u") (buildPeriods 1700000000000)
  = map (periodResult quietNet "u") (buildPeriods 1)
  ∧ (fetchTopLanguages flakyNet [] 1700000000000 (Some "u") ["B"] 1 0
                       emptyWorld).2
    = (fetchTopLanguages quietNet [] 1 (Some "u") ["B"] 1 0
                         (logLine "earlier" emptyWorld)).2.
Proof.
  assert (map (periodResult flakyNet "u") (buildPeriods 1700000000000)
          = map (periodResult quietNet "u") (buildPeriods 1)) as Hsame
    by (vm_compute; reflexivity).
  split; [exact Hsame|].
  apply (fetchTopLanguages_deterministic
           flakyNet quietNet 1700000000000 1 [] (Some "u") ["B"] 1 0
           emptyWorld (logLine "earlier" emptyWorld)).
  exact Hsame.
Defined.

(** ** Failures

    What the caller can observe of a failure. *)

Lemma processCollections_descending exclude_repo excludeRepositories
    size_weight count_weight allCollections :
  ∃ topLangs,
    processCollections exclude_repo excludeRepositories size_weight
                       count_weight allCollections
    = Returns topLangs
    ∧ descending topLangs.
Proof.
  eexists. split; [apply processCollections_returns|].
  apply rank_descending, scored_keys_NoDup.
Qed.

(** C6, as amended: a period whose fetch fails, by rejection or by the shape
    of its response, contributes the empty list, and what a period
    contributes depends on its own outcome only; the call still returns the
    mapping computed from the per-period contributions; the lines logged are
    exactly one line per rejected period, naming it.  A response with
    GraphQL errors or without [contributionsCollection] logs nothing. *)
Theorem period_failures_are_absorbed
    (net : Network) (excludeRepositories : list string) (now : Z)
    (username : string) (exclude_repo : list string)
    (size_weight count_weight : nat) (w : World) :
  truthy username = true →
  let periods := buildPeriods now in
  let out := fetchTopLanguages net excludeRepositories now (Some username)
               exclude_repo size_weight count_weight w in
  (∀ p, periodFails net username p = true → periodResult net username p = [])
  ∧ (∀ net' p,
        net' (periodVariables username p) = net (periodVariables username p) →
        periodResult net' username p = periodResult net username p)
  ∧ (∃ topLangs,
        out.2 = Returns topLangs
        ∧ processCollections exclude_repo excludeRepositories size_weight
            count_weight (map (periodResult net username) periods)
          = Returns topLangs)
  ∧ (∃ lines,
        logged out.1 = (logged w ++ lines)%list
        ∧ lines
          ≡ₚ omap (fun p =>
                     (fun err =>
                        ("Failed to fetch contributions for period "
                           ++ periodLabel p ++ ": "
                           ++ describeError err)%string)
                       <$> periodRejection net username p)
                  periods).
Proof.
  intros Hu periods out. subst out periods.
  rewrite fetchTopLanguages_present by exact Hu.
  split; [|split; [|split]].
  - intros p. apply periodResult_fails.
  - intros net' p. apply periodResult_local.
  - cbn [snd]. rewrite processCollections_returns. eauto.
  - cbn [fst]. rewrite fetchAll_world. eexists. split; reflexivity.
Qed.

Lemma period_failures_are_absorbed_witness :
  truthy "u" = true
  ∧ ∀ p, periodFails flakyNet "u" p = true → periodResult flakyNet "u" p = [].
Proof.
  split; [reflexivity|].
  apply (period_failures_are_absorbed
           flakyNet [] 1700000000000 "u" [] 1 0 emptyWorld).
  reflexivity.
Defined.

Example flakyNet_run :
  fetchTopLanguages flakyNet [] 1700000000000 (Some "u") [] 1 0 emptyWorld
  = ({| requests :=
          map (periodVariables "u") (buildPeriods 1700000000000);
        logged :=
          map (fun k => "Failed to fetch contributions for period "
                          ++ IsoDate.toISOString (1700000000000 - k * sixMonths)
                          ++ ": boom")
              (seqZ 1 9) |},
     Returns
       [ ("X", {| lang_name := "X"; lang_color := None;
                  lang_size := 150; lang_count := 2 |});
         ("Y", {| lang_name := "Y"; lang_color := None;
                  lang_size := 30; lang_count := 1 |}) ]).
Proof. vm_compute. reflexivity. Qed.

(** C6, as stated, fails: every period of this run fails by the shape of its
    response, each contributes nothing, and no line is logged. *)
Lemma malformed_response_logs_nothing :
  Forall (fun p => periodFails erroringNet "u" p = true)
         (buildPeriods 1700000000000)
  ∧ fetchTopLanguages erroringNet [] 1700000000000 (Some "u") [] 1 0 emptyWorld
    = ({| requests := map (periodVariables "u") (buildPeriods 1700000000000);
          logged := [] |},
       Returns [])
  ∧ ¬ (∀ p, p ∈ buildPeriods 1700000000000 →
            periodFails erroringNet "u" p = true →
            ∃ line,
              line ∈ logged (fetchTopLanguages erroringNet [] 1700000000000
                               (Some "u") [] 1 0 emptyWorld).1).
Proof.
  assert (fetchTopLanguages erroringNet [] 1700000000000 (Some "u") [] 1 0
                            emptyWorld
          = ({| requests := map (periodVariables "u")
                                (buildPeriods 1700000000000);
                logged := [] |},
             Returns [])) as Hrun by (vm_compute; reflexivity).
  split; [|split].
  - apply Forall_forall. intros p _. reflexivity.
  - exact Hrun.
  - rewrite Hrun. cbn [fst logged]. intros H.
    destruct (H None) as [line Hline].
    + rewrite buildPeriods_unfold. apply list_elem_of_here.
    + reflexivity.
    + apply elem_of_nil in Hline as [].
Qed.

(** * Further properties of the code *)

(** ** Queries and log of a call *)

Lemma truthy_app_r (s1 s2 : string) : truthy s2 = true → truthy (s1 ++ s2) = true.
Proof. destruct s1; [trivial | reflexivity]. Qed.

Lemma toISOString_truthy t : truthy (IsoDate.toISOString t) = true.
Proof.
  unfold IsoDate.toISOString.
  destruct (IsoDate.civil_from_days (t / IsoDate.msPerDay)) as [[y m] d].
  apply truthy_app_r. reflexivity.
Qed.

Lemma periodVariables_window username t :
  periodVariables username (Some (IsoDate.toISOString t))
  = {| login := username; from := Some (IsoDate.toISOString t) |}.
Proof.
  unfold periodVariables. cbn [truthyOpt].
  rewrite toISOString_truthy. reflexivity.
Qed.

(** X1: A call with a non-empty username issues ten queries after those already
    issued, in the order of the periods: all carry the username as [login],
    the first has no [from], and the [k]-th window carries the ISO text of
    [now - k * sixMonths] as [from]. *)
Theorem queries_of_a_call
    (net : Network) (excludeRepositories : list string) (now : Z)
    (username : string) (exclude_repo : list string)
    (size_weight count_weight : nat) (w : World) :
  truthy username = true →
  requests (fetchTopLanguages net excludeRepositories now (Some username)
              exclude_repo size_weight count_weight w).1
  = (requests w
       ++ {| login := username; from := None |}
       :: map (fun k => {| login := username;
                           from := Some (IsoDate.toISOString
                                           (now - k * sixMonths)) |})
              (seqZ 1 9))%list.
Proof.
  intros Hu. rewrite fetchTopLanguages_present by exact Hu.
  rewrite fetchAll_world. cbn [fst requests]. f_equal.
  rewrite buildPeriods_unfold. cbn [map]. f_equal.
  rewrite map_map. apply map_ext. intros k. apply periodVariables_window.
Qed.

Lemma queries_of_a_call_witness :
  truthy "u" = true
  ∧ length (requests (fetchTopLanguages erroringNet [] 1700000000000 (Some "u")
                        [] 1 0 emptyWorld).1) = 10%nat.
Proof.
  split; [reflexivity|].
  rewrite (queries_of_a_call erroringNet [] 1700000000000 "u" [] 1 0
             emptyWorld); reflexivity.
Defined.

(** X3: When every period's fetch fails, by rejection or by the shape of the
    response, the call returns the empty mapping. *)
Theorem all_periods_failing_gives_empty_mapping
    (net : Network) (excludeRepositories : list string) (now : Z)
    (username : string) (exclude_repo : list string)
    (size_weight count_weight : nat) (w : World) :
  truthy username = true →
  Forall (fun p => periodFails net username p = true) (buildPeriods now) →
  (fetchTopLanguages net excludeRepositories now (Some username)
                     exclude_repo size_weight count_weight w).2
  = Returns [].
Proof.
  intros Hu Hfail. rewrite fetchTopLanguages_present by exact Hu. cbn [snd].
  unfold processCollections.
  assert (dedup (map (periodResult net username) (buildPeriods now)) = [])
    as ->; [|reflexivity].
  unfold dedup. rewrite dedupFrom_concat.
  assert (concat (map (periodResult net username) (buildPeriods now)) = [])
    as ->; [|reflexivity].
  induction Hfail as [|p periods Hp _ IH]; cbn; [reflexivity|].
  rewrite (periodResult_fails _ _ _ Hp), IH. reflexivity.
Qed.

Lemma all_periods_failing_gives_empty_mapping_witness :
  truthy "u" = true
  ∧ Forall (fun p => periodFails erroringNet "u" p = true)
           (buildPeriods 1700000000000)
  ∧ (fetchTopLanguages erroringNet [] 1700000000000 (Some "u") [] 2 3
                       emptyWorld).2
    = Returns [].
Proof.
  assert (Forall (fun p => periodFails erroringNet "u" p = true)
                 (buildPeriods 1700000000000)) as Hfail.
  { apply Forall_forall. intros p _. reflexivity. }
  split; [reflexivity|]. split; [exact Hfail|].
  apply (all_periods_failing_gives_empty_mapping
           erroringNet [] 1700000000000 "u" [] 2 3 emptyWorld).
  - reflexivity.
  - exact Hfail.
Defined.

(** ** More on deduplication *)

Lemma candidates_app colls1 colls2 :
  candidates (colls1 ++ colls2)%list
  = (candidates colls1 ++ candidates colls2)%list.
Proof. unfold candidates. rewrite concat_app, omap_app. reflexivity. Qed.

Lemma dedup_get allCollections key :
  OMap.get (dedup allCollections) key
  = OMap.get (candidates allCollections) key.
Proof. rewrite dedup_candidates, insertFirst_get. reflexivity. Qed.

Lemma insertFirst_known repoMap cs :
  Forall (fun c => c.1 ∈ OMap.keys repoMap) cs →
  foldl insertFirst repoMap cs = repoMap.
Proof.
  induction 1 as [|c cs Hc _ IH]; cbn; [reflexivity|].
  unfold insertFirst at 2. apply has_true_keys in Hc. rewrite Hc. exact IH.
Qed.

Lemma insertFirst_keys repoMap cs :
  OMap.keys (foldl insertFirst repoMap cs)
  = (OMap.keys repoMap
       ++ filter (fun k => k ∉ OMap.keys repoMap) (nubFirst (OMap.keys cs)))%list.
Proof.
  revert repoMap. induction cs as [|c cs IH]; intros repoMap.
  - cbn. rewrite app_nil_r. reflexivity.
  - cbn [foldl]. rewrite IH. unfold insertFirst.
    change (OMap.keys (c :: cs)) with (c.1 :: OMap.keys cs). cbn [nubFirst].
    destruct (OMap.has repoMap c.1) eqn:E.
    + apply has_true_keys in E.
      rewrite filter_cons_False by (intros H; apply H, E).
      rewrite list_filter_filter. f_equal.
      apply list_filter_iff. intros k. split; [|tauto].
      intros Hk. split; [exact Hk | congruence].
    + apply has_false_keys in E.
      rewrite filter_cons_True by exact E.
      assert (OMap.keys (repoMap ++ [c])%list
              = (OMap.keys repoMap ++ [c.1])%list) as ->
        by (unfold OMap.keys; rewrite map_app; reflexivity).
      rewrite <- app_assoc. cbn [app]. do 2 f_equal.
      rewrite list_filter_filter.
      apply list_filter_iff. intros k.
      rewrite elem_of_app, list_elem_of_singleton. tauto.
Qed.

(** X4: How the records are split into periods does not matter, only the order
    in which they are scanned: two lists of per-period results with the same
    concatenation give the same mapping.  In particular an empty result, as
    a failed period gives, is as good as no period. *)
Theorem only_scan_order_matters
    (exclude_repo excludeRepositories : list string)
    (size_weight count_weight : nat)
    (colls1 colls2 : list (list ContributionsByRepository)) :
  concat colls1 = concat colls2 →
  dedup colls1 = dedup colls2
  ∧ processCollections exclude_repo excludeRepositories size_weight
      count_weight colls1
    = processCollections exclude_repo excludeRepositories size_weight
        count_weight colls2.
Proof.
  intros Hsame.
  assert (dedup colls1 = dedup colls2) as Hd.
  { unfold dedup. rewrite !dedupFrom_concat, Hsame. reflexivity. }
  split; [exact Hd|]. unfold processCollections. rewrite Hd. reflexivity.
Qed.

Lemma only_scan_order_matters_witness :
  concat ([] :: overlappingPeriods) = concat [concat overlappingPeriods]
  ∧ dedup ([] :: overlappingPeriods) = dedup [concat overlappingPeriods].
Proof.
  assert (concat ([] :: overlappingPeriods) = concat [concat overlappingPeriods])
    as Hsame by reflexivity.
  split; [exact Hsame|].
  apply (only_scan_order_matters [] [] 1 0 _ _ Hsame).
Defined.

(** X5: Records scanned earlier take priority: the repository kept for a key
    over two runs of periods is the one the first run keeps, and the one of
    the second run only when the first run has none for that key. *)
Theorem earlier_periods_take_priority
    (colls1 colls2 : list (list ContributionsByRepository)) (key : string) :
  OMap.get (dedup (colls1 ++ colls2)%list) key
  = match OMap.get (dedup colls1) key with
    | Some repo => Some repo
    | None => OMap.get (dedup colls2) key
    end.
Proof. rewrite !dedup_get, candidates_app. apply get_app. Qed.

(** X6: Within one response the commit contributions are scanned before the
    pull-request contributions and these before the issue contributions:
    for a key that several of them carry, the repository kept is the one of
    the first of the three lists that has it with language edges. *)
Theorem commits_before_pulls_before_issues
    (contrib : ContributionsCollection) (key : string) :
  OMap.get (dedup [allContributions contrib]) key
  = match OMap.get (dedup [commitContributionsByRepository contrib]) key with
    | Some repo => Some repo
    | None =>
        match OMap.get (dedup [pullRequestContributionsByRepository contrib])
                       key with
        | Some repo => Some repo
        | None => OMap.get (dedup [issueContributionsByRepository contrib]) key
        end
    end.
Proof.
  rewrite !dedup_get. unfold candidates, allContributions.
  cbn [concat]. rewrite !app_nil_r, !omap_app, !get_app. reflexivity.
Qed.

(** X7: Scanning further periods changes nothing when the key of each of their
    insertable records is already in the map; scanning the same periods a
    second time is such a case. *)
Theorem known_keys_change_nothing
    (colls more : list (list ContributionsByRepository)) :
  Forall (fun c => c.1 ∈ OMap.keys (dedup colls)) (candidates more) →
  dedup (colls ++ more)%list = dedup colls.
Proof.
  intros Hknown. rewrite !dedup_candidates, candidates_app, foldl_app.
  rewrite <- dedup_candidates. apply insertFirst_known, Hknown.
Qed.

Lemma known_keys_change_nothing_witness :
  Forall (fun c => c.1 ∈ OMap.keys (dedup overlappingPeriods))
         (candidates overlappingPeriods)
  ∧ dedup (overlappingPeriods ++ overlappingPeriods)%list
    = dedup overlappingPeriods.
Proof.
  assert (Forall (fun c => c.1 ∈ OMap.keys (dedup overlappingPeriods))
                 (candidates overlappingPeriods)) as Hknown.
  { repeat constructor. }
  split; [exact Hknown|].
  apply (known_keys_change_nothing overlappingPeriods overlappingPeriods Hknown).
Defined.

(** X8: Every entry of the map of repositories is filed under the non-empty key
    [nameWithOwner || name] of its repository, and the repository has at
    least one language edge. *)
Theorem repoMap_entries_are_well_formed
    (allCollections : list (list ContributionsByRepository)) :
  Forall (fun kr => kr.1 = repoKey kr.2
                    ∧ kr.1 ≠ ""
                    ∧ ∃ edge edges, repo_languages kr.2 = Some (edge :: edges))
         (dedup allCollections).
Proof.
  apply Forall_forall. intros [key repo] Hin. cbn [fst snd].
  apply dedup_elem_candidate in Hin as (item & _ & Hc).
  apply candidate_has_edges in Hc as (Hedges & Hkey & Htruthy).
  split; [exact Hkey|]. split.
  - intros ->. discriminate.
  - unfold hasLanguageEdges in Hedges.
    destruct (repo_languages repo) as [[|edge edges]|]; try discriminate. eauto.
Qed.

(** X9: The map of repositories enumerates its keys in the order in which the
    scan first meets them on a record with language edges. *)
Theorem repoMap_keeps_first_seen_order
    (allCollections : list (list ContributionsByRepository)) :
  OMap.keys (dedup allCollections)
  = nubFirst (OMap.keys (candidates allCollections)).
Proof.
  rewrite dedup_candidates, insertFirst_keys.
  change (OMap.keys (@nil (string * Repository))) with (@nil string).
  cbn [app].
  generalize (nubFirst (OMap.keys (candidates allCollections))). intros l.
  induction l as [|k l IH]; [reflexivity|].
  rewrite filter_cons_True by apply not_elem_of_nil. f_equal. exact IH.
Qed.

(** ** More on exclusion *)

(** X10: The filter of line 181 keeps, in the order of the map, exactly the
    repositories whose name is in neither exclusion list and is not the name
    of a member that a plain object inherits ([constructor], [toString],
    [__proto__], ...). *)
Theorem visible_repositories_characterised
    (exclude_repo excludeRepositories : list string)
    (repoMap : list (string * Repository)) :
  visibleRepos exclude_repo excludeRepositories repoMap
  = filter (fun repo => (repo_name repo ∉ exclude_repo)
                        ∧ (repo_name repo ∉ excludeRepositories)
                        ∧ (repo_name repo ∉ objectPrototypeKeys))
           (OMap.values repoMap).
Proof.
  unfold visibleRepos. apply list_filter_iff. intros repo.
  rewrite negb_true_iff, <- not_true_iff_false, isHidden_build, elem_of_app.
  tauto.
Qed.

(** X11: Only the set of excluded names matters: their order, their repetition
    and the list that carries them (the caller's or the environment's) do
    not. *)
Theorem exclusion_depends_on_the_set_of_names
    (exclude_repo excludeRepositories exclude_repo' excludeRepositories'
       : list string)
    (repoMap : list (string * Repository)) :
  (list_to_set (exclude_repo ++ excludeRepositories)%list : gset string)
  = list_to_set (exclude_repo' ++ excludeRepositories')%list →
  visibleRepos exclude_repo excludeRepositories repoMap
  = visibleRepos exclude_repo' excludeRepositories' repoMap.
Proof.
  intros Hset. unfold visibleRepos. apply list_filter_iff. intros repo.
  rewrite !negb_true_iff, <- !not_true_iff_false, !isHidden_build.
  assert (repo_name repo ∈ (exclude_repo ++ excludeRepositories)%list
          ↔ repo_name repo ∈ (exclude_repo' ++ excludeRepositories')%list)
    as Hiff.
  { rewrite <- !(elem_of_list_to_set (C := gset string)), Hset. reflexivity. }
  tauto.
Qed.

Lemma exclusion_depends_on_the_set_of_names_witness :
  (list_to_set (["A"; "B"; "A"] ++ ["C"])%list : gset string)
  = list_to_set (["C"] ++ ["B"; "A"])%list
  ∧ visibleRepos ["A"; "B"; "A"] ["C"] mapWithA
    = visibleRepos ["C"] ["B"; "A"] mapWithA.
Proof.
  assert ((list_to_set (["A"; "B"; "A"] ++ ["C"])%list : gset string)
          = list_to_set (["C"] ++ ["B"; "A"])%list) as Hset
    by (vm_compute; reflexivity).
  split; [exact Hset|].
  apply (exclusion_depends_on_the_set_of_names
           ["A"; "B"; "A"] ["C"] ["C"] ["B"; "A"] mapWithA Hset).
Defined.

(** X12: Exclusion composes: excluding further names amounts to removing the
    repositories with these names from what was kept before. *)
Theorem exclusion_composes
    (exclude_repo more excludeRepositories : list string)
    (repoMap : list (string * Repository)) :
  visibleRepos (exclude_repo ++ more)%list excludeRepositories repoMap
  = filter (fun repo => repo_name repo ∉ more)
           (visibleRepos exclude_repo excludeRepositories repoMap).
Proof.
  unfold visibleRepos. rewrite list_filter_filter.
  apply list_filter_iff. intros repo.
  rewrite !negb_true_iff, <- !not_true_iff_false, !isHidden_build.
  rewrite !elem_of_app. tauto.
Qed.

(** X13: After deduplication the filter of line 186 finds no repository without
    language edges: it returns its input, and reading
    [node.languages.edges] never throws. *)
Theorem no_empty_repository_left
    (exclude_repo excludeRepositories : list string)
    (allCollections : list (list ContributionsByRepository)) :
  filterNonEmpty (visibleRepos exclude_repo excludeRepositories
                    (dedup allCollections))
  = Returns (visibleRepos exclude_repo excludeRepositories
               (dedup allCollections)).
Proof.
  apply filterNonEmpty_has_edges, Forall_forall. intros repo Hin.
  apply visibleRepos_sub in Hin.
  pose proof (dedup_has_edges allCollections) as Hall.
  rewrite Forall_forall in Hall. apply Hall, Hin.
Qed.

(** ** More on the language table *)






Lemma foldEdges_counts edges :
  0 <= repoCount (foldEdges edges) <= Z.of_nat (length edges)
  ∧ Forall (fun kv => 1 <= lang_count kv.2 <= Z.of_nat (length edges))
           (acc (foldEdges edges)).
Proof.
  induction edges as [|prev edges [Hcount Hall]] using rev_ind.
  - split; [cbn; lia | constructor].
  - rewrite foldEdges_snoc, length_app. cbn [length].
    pose proof (foldStep_repoCount edges prev) as Hstep.
    destruct (foldStep_acc (foldEdges edges) prev)
      as (new & -> & _ & Hnew & _).
    assert (1 <= repoCount (foldStep (foldEdges edges) prev)
            <= Z.of_nat (length edges + 1)) as Hbound.
    { rewrite Hstep. destruct (OMap.has _ _); lia. }
    split; [lia|].
    apply Forall_forall. intros [k e] Hin.
    apply elem_of_set in Hin as [[= -> ->]|Hin]; cbn [snd].
    + rewrite Hnew. exact Hbound.
    + rewrite Forall_forall in Hall. specialize (Hall _ Hin). cbn in Hall. lia.
Qed.

Lemma applyWeights_elem size_weight count_weight table key entry :
  (key, entry) ∈ applyWeights size_weight count_weight table →
  ∃ old, (key, old) ∈ table
         ∧ lang_name entry = lang_name old
         ∧ lang_color entry = lang_color old
         ∧ lang_count entry = lang_count old
         ∧ lang_size entry = score size_weight count_weight old.
Proof.
  unfold applyWeights. intros H.
  apply list_elem_of_fmap in H as ([k old] & Heq & Hin).
  injection Heq as -> ->. exists old. cbn. auto.
Qed.

(** X15: The mapping returned has each language once, files every entry under
    its own name, and gives every entry a count between 1 and the number of
    edges folded. *)
Theorem output_is_a_well_formed_mapping
    (exclude_repo excludeRepositories : list string)
    (size_weight count_weight : nat)
    (allCollections : list (list ContributionsByRepository)) :
  ∃ topLangs,
    processCollections exclude_repo excludeRepositories size_weight
                       count_weight allCollections
    = Returns topLangs
    ∧ NoDup (OMap.keys topLangs)
    ∧ Forall (fun kv =>
                lang_name kv.2 = kv.1
                ∧ 1 <= lang_count kv.2
                  <= Z.of_nat (length (flatEdges
                                         (visibleRepos exclude_repo
                                            excludeRepositories
                                            (dedup allCollections)))))
             topLangs.
Proof.
  eexists. split; [apply processCollections_returns|].
  set (edges := flatEdges _).
  pose proof (rank_Permutation _ (scored_keys_NoDup size_weight count_weight
                                    edges)) as Hperm.
  split.
  - unfold OMap.keys. rewrite Hperm. apply scored_keys_NoDup.
  - apply Forall_forall. intros [key entry] Hin. rewrite Hperm in Hin.
    apply applyWeights_elem in Hin as (old & Hin & Hname & _ & Hcount & _).
    cbn [fst snd]. rewrite Hname, Hcount. split.
    + apply (foldEdges_keyed edges), Hin.
    + pose proof (proj2 (foldEdges_counts edges)) as Hall.
      rewrite Forall_forall in Hall. apply (Hall _ Hin).
Qed.











(** ** More on ranking *)

Lemma sortKeys_of_sorted (f : string → Z) (cmp : string → string → Z) keys :
  (∀ a b, cmp a b = f b - f a) →
  StronglySorted (fun a b => f a >= f b) keys →
  sortKeys cmp keys = keys.
Proof.
  intros Hcmp. induction 1 as [|k keys Hkeys IH Hk]; [reflexivity|].
  cbn [sortKeys foldr]. change (foldr (insertKey cmp) [] keys)
    with (sortKeys cmp keys).
  rewrite IH. destruct Hk as [|y rest Hy _]; [reflexivity|].
  cbn [insertKey]. rewrite Hcmp.
  destruct (Z.ltb_spec (f k - f y) 0); [lia | reflexivity].
Qed.

Lemma StronglySorted_keys table :
  NoDup (OMap.keys table) →
  descending table →
  StronglySorted (fun a b => sizeOf table a >= sizeOf table b)
                 (OMap.keys table).
Proof.
  intros Hnd Hdesc.
  assert (∀ kv, kv ∈ table → sizeOf table kv.1 = lang_size kv.2) as Hsize.
  { intros [k e] Hin. cbn [fst snd]. unfold sizeOf.
    rewrite (get_NoDup_elem _ _ _ Hnd Hin). reflexivity. }
  revert Hsize. generalize (sizeOf table). intros f Hsize. clear Hnd.
  unfold descending in Hdesc.
  induction Hdesc as [|kv rest Hrest IH Hkv]; cbn; constructor.
  - apply IH. intros kv' Hin. apply Hsize, list_elem_of_further, Hin.
  - apply Forall_forall. intros k Hk.
    apply list_elem_of_fmap in Hk as (kv' & -> & Hin).
    rewrite Forall_forall in Hkv. specialize (Hkv kv' Hin).
    rewrite (Hsize kv) by apply list_elem_of_here.
    rewrite (Hsize kv') by apply list_elem_of_further, Hin.
    exact Hkv.
Qed.

Lemma rank_of_descending table :
  NoDup (OMap.keys table) → descending table → rank table = table.
Proof.
  intros Hnd Hdesc. rewrite rank_map by exact Hnd.
  rewrite (sortKeys_of_sorted (sizeOf table)).
  - apply entryOf_keys, Hnd.
  - reflexivity.
  - apply StronglySorted_keys; assumption.
Qed.



Lemma foldl_foldStep_keys st edges :
  OMap.keys (acc (foldl foldStep st edges))
  = (OMap.keys (acc st)
       ++ filter (fun k => k ∉ OMap.keys (acc st))
                 (nubFirst (map edgeName edges)))%list.
Proof.
  revert st. induction edges as [|prev edges IH]; intros st.
  - cbn. rewrite app_nil_r. reflexivity.
  - cbn [foldl map nubFirst]. rewrite IH.
    destruct (foldStep_acc st prev) as (new & -> & _).
    destruct (OMap.has (acc st) (edgeName prev)) eqn:E.
    + rewrite keys_set_present by exact E. apply has_true_keys in E.
      rewrite filter_cons_False by (intros H; apply H, E).
      rewrite list_filter_filter. f_equal.
      apply list_filter_iff. intros k. split; [|tauto].
      intros Hk. split; [exact Hk | congruence].
    + rewrite set_fresh by exact E. apply has_false_keys in E.
      rewrite filter_cons_True by exact E.
      assert (OMap.keys (acc st ++ [(edgeName prev, new)])%list
              = (OMap.keys (acc st) ++ [edgeName prev])%list) as ->
        by (unfold OMap.keys; rewrite map_app; reflexivity).
      rewrite <- app_assoc. cbn [app]. do 2 f_equal.
      rewrite list_filter_filter.
      apply list_filter_iff. intros k.
      rewrite elem_of_app, list_elem_of_singleton. tauto.
Qed.

Lemma foldEdges_keys edges :
  OMap.keys (acc (foldEdges edges)) = nubFirst (map edgeName edges).
Proof.
  unfold foldEdges. rewrite foldl_foldStep_keys. cbn [acc].
  change (OMap.keys (@nil (string * Lang))) with (@nil string). cbn [app].
  generalize (nubFirst (map edgeName edges)). intros l.
  induction l as [|k l IH]; [reflexivity|].
  rewrite filter_cons_True by apply not_elem_of_nil. f_equal. exact IH.
Qed.

Lemma score_zero_weights entry : score 0 0 entry = 1.
Proof. reflexivity. Qed.

Lemma zero_weights_fold_order
    (exclude_repo excludeRepositories : list string)
    (allCollections : list (list ContributionsByRepository)) :
  ∃ topLangs,
    processCollections exclude_repo excludeRepositories 0 0 allCollections
    = Returns topLangs
    ∧ OMap.keys topLangs
      = nubFirst (map edgeName
                    (flatEdges (visibleRepos exclude_repo excludeRepositories
                                  (dedup allCollections))))
    ∧ Forall (fun kv => lang_size kv.2 = 1) topLangs.
Proof.
  eexists. split; [apply processCollections_returns|].
  set (edges := flatEdges _).
  assert (Forall (fun kv : string * Lang => lang_size kv.2 = 1)
                 (applyWeights 0 0 (acc (foldEdges edges)))) as Hone.
  { apply Forall_forall. intros [k e] Hin.
    apply applyWeights_elem in Hin as (old & _ & _ & _ & _ & Hsize).
    exact Hsize. }
  rewrite rank_of_descending.
  - split; [|exact Hone]. rewrite applyWeights_keys. apply foldEdges_keys.
  - apply scored_keys_NoDup.
  - unfold descending. clear -Hone.
    induction Hone as [|kv l Hkv Hl IH]; constructor; [exact IH|].
    eapply Forall_impl; [exact Hl|]. cbn. intros kv' Hkv'. lia.
Qed.

Lemma rawSize_nonneg name edges :
  Forall (fun edge => 0 <= edge_size edge) edges → 0 <= rawSize name edges.
Proof.
  induction 1 as [|e edges He _ IH]; cbn; [lia|].
  fold (rawSize name edges). destruct (String.eqb (edgeName e) name); lia.
Qed.

Lemma foldEdges_sizes_nonneg edges :
  Forall (fun edge => 0 <= edge_size edge) edges →
  ∀ name entry,
    OMap.get (acc (foldEdges edges)) name = Some entry → 0 <= lang_size entry.
Proof.
  intros Hnn name entry G. pose proof (foldEdges_get edges name) as Hget.
  rewrite G in Hget. destruct Hget as [-> _]. apply rawSize_nonneg, Hnn.
Qed.

(** ** More on scores *)

Lemma score_nonneg size_weight count_weight entry :
  0 <= lang_size entry → 0 <= lang_count entry →
  0 <= score size_weight count_weight entry.
Proof.
  intros Hs Hc. unfold score.
  apply Z.mul_nonneg_nonneg; apply Z.pow_nonneg; assumption.
Qed.

(** X22: When no byte size is negative, no score is negative, whatever the
    weights. *)
Theorem scores_are_not_negative
    (exclude_repo excludeRepositories : list string)
    (size_weight count_weight : nat)
    (allCollections : list (list ContributionsByRepository)) :
  Forall (fun edge => 0 <= edge_size edge)
         (flatEdges (visibleRepos exclude_repo excludeRepositories
                       (dedup allCollections))) →
  ∃ topLangs,
    processCollections exclude_repo excludeRepositories size_weight
                       count_weight allCollections
    = Returns topLangs
    ∧ Forall (fun kv => 0 <= lang_size kv.2) topLangs.
Proof.
  intros Hnn. eexists. split; [apply processCollections_returns|].
  set (edges := flatEdges _) in *.
  apply Forall_forall. intros [key entry] Hin.
  rewrite (rank_Permutation _ (scored_keys_NoDup size_weight count_weight
                                 edges)) in Hin.
  apply applyWeights_elem in Hin as (old & Hin & _ & _ & _ & Hsize).
  cbn [snd]. rewrite Hsize. apply score_nonneg.
  - apply (foldEdges_sizes_nonneg edges Hnn key).
    apply (get_NoDup_elem _ _ _ (foldEdges_keys_NoDup edges)), Hin.
  - pose proof (proj2 (foldEdges_counts edges)) as Hall.
    rewrite Forall_forall in Hall. specialize (Hall _ Hin). cbn in Hall. lia.
Qed.

Lemma scores_are_not_negative_witness :
  Forall (fun edge => 0 <= edge_size edge)
         (flatEdges (visibleRepos ["B"] [] (dedup threeRepositories)))
  ∧ ∃ topLangs,
      processCollections ["B"] [] 2 3 threeRepositories = Returns topLangs
      ∧ Forall (fun kv => 0 <= lang_size kv.2) topLangs.
Proof.
  assert (Forall (fun edge => 0 <= edge_size edge)
                 (flatEdges (visibleRepos ["B"] [] (dedup threeRepositories))))
    as Hnn by (apply (bool_decide_unpack _); vm_compute; exact I).
  split; [exact Hnn|].
  apply (scores_are_not_negative ["B"] [] 2 3 threeRepositories Hnn).
Defined.

(** * The payload as received *)

(** ** Fetching *)

Lemma fetchPeriodRaw_world engine net username fromDate w :
  fetchPeriodRaw engine net username fromDate w
  = ({| requests := (requests w ++ [periodVariables username fromDate])%list;
        logged := (logged w
                     ++ match periodCaught engine net username fromDate with
                        | Some err => [failureLine fromDate err]
                        | None => []
                        end)%list |},
     rawPeriodResult engine net username fromDate).
Proof.
  unfold fetchPeriodRaw, periodCaught, rawPeriodResult.
  destruct (tryPeriod engine (net (periodVariables username fromDate)));
    cbn; [rewrite app_nil_r|]; reflexivity.
Qed.

Lemma fetchAllRaw_world engine net username periods w :
  fetchAllRaw engine net username periods w
  = ({| requests := (requests w ++ map (periodVariables username) periods)%list;
        logged := (logged w
                     ++ omap (fun p => failureLine p
                                         <$> periodCaught engine net username p)
                             periods)%list |},
     map (rawPeriodResult engine net username) periods).
Proof.
  revert w. induction periods as [|p periods IH]; intros w; cbn [fetchAllRaw].
  - cbn. rewrite !app_nil_r. destruct w; reflexivity.
  - rewrite fetchPeriodRaw_world, IH. cbn [requests logged map omap list_omap].
    rewrite <- !app_assoc. cbn [app].
    destruct (periodCaught engine net username p); reflexivity.
Qed.

Lemma fetchTopLanguagesRaw_present engine net excludeRepositories now username
    exclude_repo size_weight count_weight w :
  truthy username = true →
  fetchTopLanguagesRaw engine net excludeRepositories now (Some username)
                       exclude_repo size_weight count_weight w
  = ((fetchAllRaw engine net username (buildPeriods now) w).1,
     rawProcessCollections engine exclude_repo excludeRepositories size_weight
       count_weight
       (map (rawPeriodResult engine net username) (buildPeriods now))).
Proof.
  intros Hu. unfold fetchTopLanguagesRaw. cbn [truthyOpt].
  rewrite Hu. cbn [negb].
  change (default "" (Some username)) with username.
  rewrite !fetchAllRaw_world. reflexivity.
Qed.

Lemma fetchTopLanguagesRaw_missing_username engine net excludeRepositories now
    username exclude_repo size_weight count_weight w :
  truthyOpt username = false →
  fetchTopLanguagesRaw engine net excludeRepositories now username exclude_repo
                       size_weight count_weight w
  = (w, Throws (MissingParamError ["username"])).
Proof. intros Hu. unfold fetchTopLanguagesRaw. rewrite Hu. reflexivity. Qed.

Lemma caught_length engine net username periods :
  (length (omap (fun p => failureLine p <$> periodCaught engine net username p)
                periods) ≤ length periods)%nat.
Proof.
  induction periods as [|p periods IH]; cbn; [lia|].
  destruct (periodCaught engine net username p); cbn; lia.
Qed.

(** X2: a call with a non-empty username keeps the lines already logged and
    adds at most ten: one for each period whose [try] block throws, naming
    the period.  The block throws when the fetch rejects, when the response
    has no data, and when a collection that passes the check of line 133
    lacks one of its three lists; a response with GraphQL errors or without
    collection logs nothing. *)
Theorem log_of_a_call
    (engine : Engine) (net : RawNetwork) (excludeRepositories : list string)
    (now : Z) (username : string) (exclude_repo : list string)
    (size_weight count_weight : nat) (w : World) :
  truthy username = true →
  let out := fetchTopLanguagesRaw engine net excludeRepositories now
               (Some username) exclude_repo size_weight count_weight w in
  (∃ lines,
      logged out.1 = (logged w ++ lines)%list
      ∧ (length lines ≤ 10)%nat
      ∧ lines
        ≡ₚ omap (fun p =>
                   (fun err =>
                      ("Failed to fetch contributions for period "
                         ++ periodLabel p ++ ": " ++ describeError err)%string)
                     <$> periodCaught engine net username p)
                (buildPeriods now))
  ∧ (∀ p,
        periodCaught engine net username p
        = match net (periodVariables username p) with
          | RawRejected err => Some err
          | RawResolved res =>
              match raw_data res with
              | None => Some {| err_name := "TypeError";
                                err_message := engine (ReadOfNull "errors") |}
              | Some data =>
                  if raw_errors data then None
                  else
                    match raw_contributionsCollection data with
                    | None => None
                    | Some contrib =>
                        match raw_commitContributionsByRepository contrib,
                              raw_pullRequestContributionsByRepository contrib,
                              raw_issueContributionsByRepository contrib with
                        | Some _, Some _, Some _ => None
                        | None, _, _ =>
                            Some {| err_name := "TypeError";
                                    err_message :=
                                      engine (NotIterable
                                                "contrib.commitContributionsByRepository") |}
                        | Some _, None, _ =>
                            Some {| err_name := "TypeError";
                                    err_message :=
                                      engine (NotIterable
                                                "contrib.pullRequestContributionsByRepository") |}
                        | Some _, Some _, None =>
                            Some {| err_name := "TypeError";
                                    err_message :=
                                      engine (NotIterable
                                                "contrib.issueContributionsByRepository") |}
                        end
                    end
              end
          end).
Proof.
  intros Hu out. subst out.
  rewrite fetchTopLanguagesRaw_present by exact Hu.
  rewrite fetchAllRaw_world. cbn [fst logged]. split.
  - eexists. split; [reflexivity|]. split; [|reflexivity].
    rewrite <- (buildPeriods_length now). apply caught_length.
  - intros p. unfold periodCaught, tryPeriod.
    destruct (net (periodVariables username p)) as [res|err]; [|reflexivity].
    destruct (raw_data res) as [data|]; [|reflexivity].
    destruct (raw_errors data); [reflexivity|].
    destruct (raw_contributionsCollection data) as [contrib|]; [|reflexivity].
    destruct (raw_commitContributionsByRepository contrib); [|reflexivity].
    destruct (raw_pullRequestContributionsByRepository contrib);
      [|reflexivity].
    destruct (raw_issueContributionsByRepository contrib); reflexivity.
Qed.

Lemma log_of_a_call_witness :
  truthy "u" = true
  ∧ ∃ lines,
      logged (fetchTopLanguagesRaw sampleEngine brokenNet [] 1700000000000
                (Some "u") [] 1 0 (logLine "earlier" emptyWorld)).1
      = ("earlier" :: lines)%list
      ∧ (length lines ≤ 10)%nat
      ∧ lines
        ≡ₚ omap (fun p =>
                   (fun err =>
                      ("Failed to fetch contributions for period "
                         ++ periodLabel p ++ ": " ++ describeError err)%string)
                     <$> periodCaught sampleEngine brokenNet "u" p)
                (buildPeriods 1700000000000).
Proof.
  split; [reflexivity|].
  apply (log_of_a_call sampleEngine brokenNet [] 1700000000000 "u" [] 1 0
           (logLine "earlier" emptyWorld)).
  reflexivity.
Defined.

Example brokenNet_log :
  logged (fetchTopLanguagesRaw sampleEngine brokenNet [] 1700000000000
            (Some "u") [] 1 0 emptyWorld).1
  = "Failed to fetch contributions for period all time: Cannot read properties of null (reading 'errors')"
    :: ("Failed to fetch contributions for period "
          ++ IsoDate.toISOString (1700000000000 - 1 * sixMonths)
          ++ ": contrib.issueContributionsByRepository is not iterable")
    :: map (fun k => "Failed to fetch contributions for period "
                       ++ IsoDate.toISOString (1700000000000 - k * sixMonths)
                       ++ ": boom")
           (seqZ 3 7).
Proof. vm_compute. reflexivity. Qed.

(** ** Null elements *)

Lemma rawDedupStep_cases engine repoMap items :
  (None ∈ items
   ∧ foldM (rawDedupStep engine) repoMap items
     = Throws (TypeError (engine (ReadOfNull "repository"))))
  ∨ ((None ∉ items)
     ∧ ∃ repoMap', foldM (rawDedupStep engine) repoMap items = Returns repoMap').
Proof.
  revert repoMap. induction items as [|item items IH]; intros repoMap.
  - right. split; [apply not_elem_of_nil | cbn; eauto].
  - destruct item as [item|].
    + cbn [foldM rawDedupStep bind].
      match goal with |- context [foldM _ ?m items] =>
        destruct (IH m) as [[Hin Hthrow]|[Hnin Hret]] end.
      * left. split; [apply list_elem_of_further, Hin | exact Hthrow].
      * right. split; [|exact Hret].
        rewrite not_elem_of_cons. split; [discriminate | exact Hnin].
    + left. split; [apply list_elem_of_here | reflexivity].
Qed.

Lemma rawDedupFrom_null engine repoMap allCollections :
  None ∈ concat allCollections →
  rawDedupFrom engine repoMap allCollections
  = Throws (TypeError (engine (ReadOfNull "repository"))).
Proof.
  unfold rawDedupFrom. revert repoMap.
  induction allCollections as [|c cs IH]; intros repoMap Hin; cbn in Hin.
  - apply elem_of_nil in Hin as [].
  - cbn [foldM].
    destruct (rawDedupStep_cases engine repoMap c)
      as [[_ Hthrow]|[Hnin [repoMap' Hret]]].
    + rewrite Hthrow. reflexivity.
    + rewrite Hret. cbn [bind]. apply IH.
      apply elem_of_app in Hin as [Hin|Hin]; [contradiction | exact Hin].
Qed.

(** A [null] element in the contribution list of any period makes the call
    throw, whatever else the network answers. *)
Lemma null_item_throws engine net excludeRepositories now username
    exclude_repo size_weight count_weight w :
  truthy username = true →
  None ∈ concat (map (rawPeriodResult engine net username) (buildPeriods now)) →
  (fetchTopLanguagesRaw engine net excludeRepositories now (Some username)
                        exclude_repo size_weight count_weight w).2
  = Throws (TypeError (engine (ReadOfNull "repository"))).
Proof.
  intros Hu Hnull. rewrite fetchTopLanguagesRaw_present by exact Hu. cbn [snd].
  unfold rawProcessCollections. rewrite rawDedupFrom_null by exact Hnull.
  reflexivity.
Qed.

(** C2 fails on the code for a payload that passes the check of line 133
    and holds a [null]: a [null] element of a contribution list (line 159),
    a [null] element of [edges] (line 191) or an edge whose [node] is
    [null] (line 196) raises a TypeError after the join, outside the [try]
    block of lines 125-150; nothing is logged and the call throws. *)
Theorem null_elements_escape_the_catch (engine : Engine) :
  fetchTopLanguagesRaw engine (allTimeNet nullItemItems) [] 1700000000000
                       (Some "u") [] 1 0 emptyWorld
  = ({| requests := map (periodVariables "u") (buildPeriods 1700000000000);
        logged := [] |},
     Throws (TypeError (engine (ReadOfNull "repository"))))
  ∧ fetchTopLanguagesRaw engine (allTimeNet nullEdgeItems) [] 1700000000000
                         (Some "u") [] 1 0 emptyWorld
    = ({| requests := map (periodVariables "u") (buildPeriods 1700000000000);
          logged := [] |},
       Throws (TypeError (engine (ReadOfNull "size"))))
  ∧ fetchTopLanguagesRaw engine (allTimeNet nodelessEdgeItems) []
                         1700000000000 (Some "u") [] 1 0 emptyWorld
    = ({| requests := map (periodVariables "u") (buildPeriods 1700000000000);
          logged := [] |},
       Throws (TypeError (engine (ReadOfNull "name")))).
Proof. repeat split; vm_compute; reflexivity. Qed.

Example null_edge_message :
  (fetchTopLanguagesRaw sampleEngine (allTimeNet nullEdgeItems) []
                        1700000000000 (Some "u") [] 1 0 emptyWorld).2
  = Throws (TypeError "Cannot read properties of null (reading 'size')").
Proof. vm_compute. reflexivity. Qed.

(** ** Payloads without null *)

Lemma embedMap_get repoMap key :
  OMap.get (embedMap repoMap) key = embedRepository <$> OMap.get repoMap key.
Proof.
  induction repoMap as [|[k r] repoMap IH]; cbn; [reflexivity|].
  destruct (String.eqb k key); [reflexivity | exact IH].
Qed.

Lemma embedMap_has repoMap key :
  OMap.has (embedMap repoMap) key = OMap.has repoMap key.
Proof.
  unfold OMap.has. rewrite embedMap_get.
  destruct (OMap.get repoMap key); reflexivity.
Qed.

Lemma embedMap_set repoMap key repo :
  OMap.set (embedMap repoMap) key (embedRepository repo)
  = embedMap (OMap.set repoMap key repo).
Proof.
  induction repoMap as [|[k r] repoMap IH]; cbn; [reflexivity|].
  destruct (String.eqb k key); cbn; [reflexivity|].
  f_equal. exact IH.
Qed.

Lemma embedRepository_edges repo :
  rawHasLanguageEdges (embedRepository repo) = hasLanguageEdges repo.
Proof.
  unfold rawHasLanguageEdges, hasLanguageEdges, embedRepository. cbn.
  destruct (repo_languages repo) as [[|e es]|]; reflexivity.
Qed.

Lemma embedRepository_key repo : rawRepoKey (embedRepository repo) = repoKey repo.
Proof. reflexivity. Qed.

Lemma rawDedupStep_embed engine repoMap item :
  rawDedupStep engine (embedMap repoMap) (embedItem item)
  = Returns (embedMap (dedupStep repoMap item)).
Proof.
  unfold rawDedupStep, dedupStep, embedItem. cbn [raw_repository]. f_equal.
  destruct (repository item) as [repo|]; cbn [fmap option_fmap option_map];
    [|reflexivity].
  rewrite embedRepository_edges, embedRepository_key, embedMap_has.
  destruct (negb (hasLanguageEdges repo)); [reflexivity|].
  destruct (truthy (repoKey repo) && negb (OMap.has repoMap (repoKey repo)));
    [apply embedMap_set | reflexivity].
Qed.

Lemma rawDedupFrom_embed engine repoMap allCollections :
  rawDedupFrom engine (embedMap repoMap) (map (map embedItem) allCollections)
  = Returns (embedMap (dedupFrom repoMap allCollections)).
Proof.
  unfold rawDedupFrom, dedupFrom. revert repoMap.
  induction allCollections as [|c cs IH]; intros repoMap; cbn [map foldM foldl].
  - reflexivity.
  - assert (∀ m, foldM (rawDedupStep engine) (embedMap m) (map embedItem c)
                 = Returns (embedMap (foldl dedupStep m c))) as Hinner.
    { induction c as [|item c IHc]; intros m; cbn [map foldM foldl].
      - reflexivity.
      - rewrite rawDedupStep_embed. cbn [bind]. apply IHc. }
    rewrite Hinner. cbn [bind]. apply IH.
Qed.

Lemma filter_map_comm {A B} (f : A → B) (P : B → Prop)
    `{!∀ b, Decision (P b)} (l : list A) :
  filter P (map f l) = map f (filter (fun a => P (f a)) l).
Proof.
  induction l as [|a l IH]; [reflexivity|].
  cbn [map]. rewrite !filter_cons, IH.
  destruct (decide (P (f a))); reflexivity.
Qed.

Lemma rawVisibleRepos_embed exclude_repo excludeRepositories repoMap :
  rawVisibleRepos exclude_repo excludeRepositories (embedMap repoMap)
  = map embedRepository (visibleRepos exclude_repo excludeRepositories repoMap).
Proof.
  unfold rawVisibleRepos, visibleRepos, OMap.values, embedMap.
  rewrite map_map. cbn [snd].
  rewrite <- (map_map snd embedRepository), filter_map_comm. reflexivity.
Qed.

Lemma rawLanguageEdges_embed engine node :
  hasLanguageEdges node = true →
  rawLanguageEdges engine (embedRepository node)
  = Returns (map embedEdge (edgesOf node))
  ∧ (0 <? length (map embedEdge (edgesOf node)))%nat = true.
Proof.
  unfold hasLanguageEdges, rawLanguageEdges, edgesOf, embedRepository. cbn.
  destruct (repo_languages node) as [[|e es]|]; try discriminate.
  intros _. split; reflexivity.
Qed.

Lemma rawFilterNonEmpty_embed engine repoNodes :
  Forall (fun repo => hasLanguageEdges repo = true) repoNodes →
  rawFilterNonEmpty engine (map embedRepository repoNodes)
  = Returns (map embedRepository repoNodes).
Proof.
  induction 1 as [|node rest Hnode _ IH]; cbn [map rawFilterNonEmpty];
    [reflexivity|].
  destruct (rawLanguageEdges_embed engine node Hnode) as [Hedges Hlen].
  rewrite Hedges. cbn [bind]. rewrite IH. cbn [bind]. rewrite Hlen.
  reflexivity.
Qed.

Lemma rawFlattenEdges_embed engine repoNodes start :
  Forall (fun repo => hasLanguageEdges repo = true) repoNodes →
  rawFlattenEdges engine (map embedEdge start) (map embedRepository repoNodes)
  = Returns (map embedEdge
               (foldl (fun acc curr => (edgesOf curr ++ acc)%list)
                      start repoNodes)).
Proof.
  intros H. revert start.
  induction H as [|node rest Hnode _ IH]; intros start;
    cbn [map rawFlattenEdges foldl].
  - reflexivity.
  - destruct (rawLanguageEdges_embed engine node Hnode) as [-> _].
    cbn [bind]. rewrite <- map_app. apply IH.
Qed.

Lemma rawFold_embed engine st edges :
  foldM (rawFoldStep engine) st (map embedEdge edges)
  = Returns (foldl foldStepObject st edges).
Proof.
  revert st. induction edges as [|[size node] edges IH]; intros st;
    cbn [map foldM foldl]; [reflexivity|].
  cbn [embedEdge rawFoldStep raw_node raw_size edge_size edge_node bind].
  apply IH.
Qed.

(** On a payload without [null] the processing after the join returns: the
    mapping is the ranking, as a plain object, of the weighted table that
    the fold builds, as a plain object, from the edges of the repositories
    kept. *)
Lemma rawProcessCollections_embed engine exclude_repo excludeRepositories
    size_weight count_weight allCollections :
  rawProcessCollections engine exclude_repo excludeRepositories size_weight
    count_weight (map (map embedItem) allCollections)
  = Returns
      (rankObject
         (applyWeights size_weight count_weight
            (acc (foldl foldStepObject {| acc := []; repoCount := 0 |}
                    (flatEdges (visibleRepos exclude_repo excludeRepositories
                                  (dedup allCollections))))))).
Proof.
  unfold rawProcessCollections.
  change (@nil (string * RawRepository)) with (embedMap []).
  rewrite rawDedupFrom_embed. cbn [bind]. fold (dedup allCollections).
  unfold rawAggregate. rewrite rawVisibleRepos_embed.
  assert (Forall (fun repo => hasLanguageEdges repo = true)
                 (visibleRepos exclude_repo excludeRepositories
                    (dedup allCollections))) as Hvis.
  { apply Forall_forall. intros repo Hin. apply visibleRepos_sub in Hin.
    pose proof (dedup_has_edges allCollections) as Hall.
    rewrite Forall_forall in Hall. apply Hall, Hin. }
  rewrite (rawFilterNonEmpty_embed _ _ Hvis). cbn [bind].
  change (@nil (option RawEdge)) with (map embedEdge []).
  rewrite (rawFlattenEdges_embed _ _ _ Hvis). cbn [bind].
  rewrite rawFold_embed. reflexivity.
Qed.

(** ** Plain objects and names that are no array index *)

Lemma define_plain {V} (o : list (string * V)) key v :
  JsObject.plain key = true → JsObject.define o key v = OMap.set o key v.
Proof.
  unfold JsObject.plain, JsObject.define.
  destruct (JsObject.arrayIndex key); [discriminate | reflexivity].
Qed.

Lemma assign_plain {V} (o : list (string * V)) key v :
  JsObject.plain key = true → JsObject.assign o key v = OMap.set o key v.
Proof.
  intros Hplain. unfold JsObject.assign.
  rewrite (define_plain _ _ _ Hplain).
  unfold JsObject.plain in Hplain.
  destruct (JsObject.arrayIndex key); [discriminate|].
  destruct (String.eqb key "__proto__"); [discriminate | reflexivity].
Qed.

Lemma foldStepObject_plain st prev :
  JsObject.plain (edgeName prev) = true → foldStepObject st prev = foldStep st prev.
Proof.
  intros Hplain. unfold edgeName in Hplain. unfold foldStepObject, foldStep.
  cbn zeta.
  destruct (OMap.get (acc st) (node_name (edge_node prev))) as [entry|];
    [destruct (String.eqb _ (lang_name entry))|];
    rewrite define_plain by exact Hplain; reflexivity.
Qed.

Lemma foldl_foldStepObject_plain st edges :
  Forall (fun edge => JsObject.plain (edgeName edge) = true) edges →
  foldl foldStepObject st edges = foldl foldStep st edges.
Proof.
  intros H. revert st. induction H as [|prev edges Hprev _ IH]; intros st;
    cbn [foldl]; [reflexivity|].
  rewrite foldStepObject_plain by exact Hprev. apply IH.
Qed.

Lemma collectObject_plain table keys :
  Forall (fun key => JsObject.plain key = true) keys →
  collectObject table keys = collect table keys.
Proof.
  unfold collectObject, collect. generalize (@nil (string * Lang)).
  intros result H. revert result.
  induction H as [|key keys Hkey _ IH]; intros result; cbn [foldl];
    [reflexivity|].
  rewrite IH. destruct (OMap.get table key); [|reflexivity].
  rewrite assign_plain by exact Hkey. reflexivity.
Qed.

Lemma rankObject_plain table :
  Forall (fun key => JsObject.plain key = true) (OMap.keys table) →
  rankObject table = rank table.
Proof.
  intros Hplain. unfold rankObject, rank. apply collectObject_plain.
  apply Forall_forall. intros key Hkey.
  rewrite sortKeys_Permutation in Hkey.
  rewrite Forall_forall in Hplain. apply Hplain, Hkey.
Qed.

(** For a table whose keys are distinct and none of which is an array index
    or [__proto__], the mapping built by lines 222-227 lists the entries of
    the table in non-increasing order of size, entries of equal size in the
    order of the table; the empty table gives the empty mapping. *)
Lemma rankObject_stable_descending table :
  NoDup (OMap.keys table) →
  Forall (fun key => JsObject.plain key = true) (OMap.keys table) →
  descending (rankObject table)
  ∧ rankObject table ≡ₚ table
  ∧ (∀ s, withSize s (rankObject table) = withSize s table)
  ∧ rankObject [] = [].
Proof.
  intros Hnd Hplain. rewrite (rankObject_plain _ Hplain).
  split; [|split; [|split]].
  - apply rank_descending, Hnd.
  - apply rank_Permutation, Hnd.
  - intros s. apply rank_stable, Hnd.
  - reflexivity.
Qed.

Example rankObject_tiedTable :
  OMap.keys (rankObject tiedTable) = ["X"; "Y"; "Z"].
Proof. reflexivity. Qed.

(** On a payload without [null] whose folded edges bear no language name
    that is an array index or [__proto__], the processing after the join is
    the one of [processCollections]. *)
Lemma rawProcessCollections_plain engine exclude_repo excludeRepositories
    size_weight count_weight allCollections :
  Forall (fun edge => JsObject.plain (edgeName edge) = true)
         (flatEdges (visibleRepos exclude_repo excludeRepositories
                       (dedup allCollections))) →
  rawProcessCollections engine exclude_repo excludeRepositories size_weight
    count_weight (map (map embedItem) allCollections)
  = processCollections exclude_repo excludeRepositories size_weight
      count_weight allCollections.
Proof.
  intros Hplain.
  rewrite rawProcessCollections_embed, processCollections_returns.
  rewrite (foldl_foldStepObject_plain _ _ Hplain).
  fold (foldEdges (flatEdges (visibleRepos exclude_repo excludeRepositories
                                (dedup allCollections)))).
  rewrite rankObject_plain; [reflexivity|].
  rewrite applyWeights_keys. apply Forall_forall. intros key Hkey.
  apply foldEdges_key_edge in Hkey as (edge & Hedge & <-).
  rewrite Forall_forall in Hplain. apply Hplain, Hedge.
Qed.

(** C8 fails on the code for a language whose name is an array index: the
    mapping is built by assignment to a plain object (lines 224-227), which
    enumerates such keys first whatever their place in the sorted list.
    For 100 bytes of [X] and 5 bytes of [7] the mapping returned lists [7]
    before [X], in increasing order of score. *)
Theorem index_named_language_breaks_the_order (engine : Engine) :
  sortKeys (compareKeys indexNamedTable) (OMap.keys indexNamedTable)
  = ["X"; "7"]
  ∧ rankObject indexNamedTable = indexNamedTable
  ∧ ¬ descending (rankObject indexNamedTable)
  ∧ (fetchTopLanguagesRaw engine (allTimeNet indexNamedItems) []
                          1700000000000 (Some "u") [] 1 0 emptyWorld).2
    = Returns indexNamedTable.
Proof.
  split; [reflexivity|]. split; [reflexivity|]. split.
  - change (rankObject indexNamedTable) with indexNamedTable.
    unfold descending, indexNamedTable. intros H.
    apply StronglySorted_inv in H as [_ H].
    apply Forall_inv in H. cbn in H. lia.
  - vm_compute. reflexivity.
Qed.

(** ** The call on a payload without null *)

Lemma tryPeriod_embed engine net variables :
  tryPeriod engine (embedNetwork net variables)
  = match net variables with
    | Rejected err => inr err
    | Resolved res =>
        inl (map embedItem
               (if resp_errors res then []
                else match resp_contributionsCollection res with
                     | Some contrib => allContributions contrib
                     | None => []
                     end))
    end.
Proof.
  unfold tryPeriod, embedNetwork.
  destruct (net variables) as [res|err]; [|reflexivity].
  cbn [embedResponse raw_data raw_errors raw_contributionsCollection].
  destruct (resp_errors res); [reflexivity|].
  destruct (resp_contributionsCollection res) as [contrib|]; [|reflexivity].
  cbn. unfold allContributions. rewrite !map_app. reflexivity.
Qed.

Lemma rawPeriodResult_embed engine net username fromDate :
  rawPeriodResult engine (embedNetwork net) username fromDate
  = map embedItem (periodResult net username fromDate).
Proof.
  unfold rawPeriodResult, periodResult, fetchPeriod. rewrite tryPeriod_embed.
  destruct (net (periodVariables username fromDate)) as [res|err];
    [|reflexivity].
  destruct (resp_errors res); [reflexivity|].
  destruct (resp_contributionsCollection res); reflexivity.
Qed.

Lemma periodCaught_embed engine net username fromDate :
  periodCaught engine (embedNetwork net) username fromDate
  = periodRejection net username fromDate.
Proof.
  unfold periodCaught, periodRejection. rewrite tryPeriod_embed.
  destruct (net (periodVariables username fromDate)); reflexivity.
Qed.

Lemma fetchAllRaw_embed engine net username periods w :
  fetchAllRaw engine (embedNetwork net) username periods w
  = ((fetchAll net username periods w).1,
     map (map embedItem) (fetchAll net username periods w).2).
Proof.
  rewrite fetchAllRaw_world, fetchAll_world. cbn [fst snd]. f_equal.
  - f_equal. f_equal. induction periods as [|p periods IH]; [reflexivity|].
    cbn [omap list_omap]. rewrite periodCaught_embed, IH. reflexivity.
  - rewrite map_map. apply map_ext. intros p. apply rawPeriodResult_embed.
Qed.

(** With a non-empty username and a payload without [null] the call
    returns a mapping, whatever the network does. *)
Lemma fetchTopLanguagesRaw_embed_returns engine net excludeRepositories now
    username exclude_repo size_weight count_weight w :
  truthy username = true →
  ∃ topLangs,
    (fetchTopLanguagesRaw engine (embedNetwork net) excludeRepositories now
                          (Some username) exclude_repo size_weight
                          count_weight w).2
    = Returns topLangs.
Proof.
  intros Hu. unfold fetchTopLanguagesRaw. cbn [truthyOpt]. rewrite Hu.
  cbn [negb]. change (default "" (Some username)) with username.
  rewrite fetchAllRaw_embed. cbn [snd].
  rewrite rawProcessCollections_embed. eauto.
Qed.

(** With a payload without [null] whose folded edges bear no language name
    that is an array index or [__proto__], the call is the one of
    [fetchTopLanguages]. *)
Lemma fetchTopLanguagesRaw_embed_plain engine net excludeRepositories now
    username exclude_repo size_weight count_weight w :
  Forall (fun edge => JsObject.plain (edgeName edge) = true)
         (flatEdges
            (visibleRepos exclude_repo excludeRepositories
               (dedup (map (periodResult net (default "" username))
                           (buildPeriods now))))) →
  fetchTopLanguagesRaw engine (embedNetwork net) excludeRepositories now
                       username exclude_repo size_weight count_weight w
  = fetchTopLanguages net excludeRepositories now username exclude_repo
                      size_weight count_weight w.
Proof.
  intros Hplain. unfold fetchTopLanguagesRaw, fetchTopLanguages.
  destruct (negb (truthyOpt username)); [reflexivity|].
  rewrite fetchAllRaw_embed.
  destruct (fetchAll net (default "" username) (buildPeriods now) w)
    as [w1 allCollections] eqn:Hall.
  cbn [fst snd]. f_equal.
  assert (allCollections
          = map (periodResult net (default "" username)) (buildPeriods now))
    as ->.
  { rewrite fetchAll_world in Hall. injection Hall as _ <-. reflexivity. }
  apply rawProcessCollections_plain, Hplain.
Qed.

(** X19: on a payload without [null] whose folded edges bear no language
    name that is an array index or [__proto__], with both weights 0 every
    score is 1, zero sizes included, and the mapping returned lists the
    languages in the order in which the fold first meets them. *)
Theorem zero_weights_keep_fold_order
    (engine : Engine) (exclude_repo excludeRepositories : list string)
    (allCollections : list (list ContributionsByRepository)) :
  Forall (fun edge => JsObject.plain (edgeName edge) = true)
         (flatEdges (visibleRepos exclude_repo excludeRepositories
                       (dedup allCollections))) →
  ∃ topLangs,
    rawProcessCollections engine exclude_repo excludeRepositories 0 0
                          (map (map embedItem) allCollections)
    = Returns topLangs
    ∧ OMap.keys topLangs
      = nubFirst (map edgeName
                    (flatEdges (visibleRepos exclude_repo excludeRepositories
                                  (dedup allCollections))))
    ∧ Forall (fun kv => lang_size kv.2 = 1) topLangs.
Proof.
  intros Hplain. rewrite (rawProcessCollections_plain _ _ _ _ _ _ Hplain).
  apply zero_weights_fold_order.
Qed.

Lemma zero_weights_keep_fold_order_witness :
  Forall (fun edge => JsObject.plain (edgeName edge) = true)
         (flatEdges (visibleRepos ["B"] [] (dedup threeRepositories)))
  ∧ ∃ topLangs,
      rawProcessCollections sampleEngine ["B"] [] 0 0
                            (map (map embedItem) threeRepositories)
      = Returns topLangs
      ∧ OMap.keys topLangs
        = nubFirst (map edgeName
                      (flatEdges (visibleRepos ["B"] []
                                    (dedup threeRepositories))))
      ∧ Forall (fun kv => lang_size kv.2 = 1) topLangs.
Proof.
  assert (Forall (fun edge => JsObject.plain (edgeName edge) = true)
                 (flatEdges (visibleRepos ["B"] [] (dedup threeRepositories))))
    as Hplain by (apply (bool_decide_unpack _); vm_compute; exact I).
  split; [exact Hplain|].
  apply (zero_weights_keep_fold_order sampleEngine ["B"] [] threeRepositories
           Hplain).
Defined.

Example zero_weights_index_named :
  rawProcessCollections sampleEngine [] [] 0 0 [indexNamedItems]
  = Returns [ ("7", {| lang_name := "7"; lang_color := None;
                       lang_size := 1; lang_count := 1 |});
              ("X", {| lang_name := "X"; lang_color := None;
                       lang_size := 1; lang_count := 1 |}) ].
Proof. vm_compute. reflexivity. Qed.
